(** * swarm-mcp-factory: the generation pipeline, the protocol compliance
      check, the server registry and the HTTP query surface.

    A shallow embedding of [src/parser.js], [src/validator.js],
    [src/registry.js] and [src/api.js].  Strings are sequences of code
    units below 256 ([string]); the collaborators of a job (the language
    model, the file-writing generator, the file system and the compiler
    behind the validator, the packager, the clock and the id generators)
    are fields of a [World] record. *)

From Stdlib Require Import String Ascii List Bool Arith ZArith Lia ListSet.
From Stdlib Require Import DecimalString.
Import ListNotations.

Local Open Scope list_scope.
Local Open Scope string_scope.

(* ================================================================== *)
(** ** JavaScript strings and the regular expressions of the sources   *)
(* ================================================================== *)

Module Js.

(** The double quote and the line feed. *)
Definition dq : ascii := "034"%char.
Definition lf : ascii := "010"%char.
Definition dqs : string := String dq EmptyString.

(** [\s] restricted to code units below 256: TAB, LF, VT, FF, CR, SPACE
    and NBSP. *)
Definition is_space (c : ascii) : bool :=
  let n := nat_of_ascii c in
  Nat.eqb n 9 || Nat.eqb n 10 || Nat.eqb n 11 || Nat.eqb n 12
  || Nat.eqb n 13 || Nat.eqb n 32 || Nat.eqb n 160.

(** The character class of the two quote characters, written [Q] in the
    regular expressions quoted below. *)
Definition is_quote (c : ascii) : bool :=
  Ascii.eqb c "'"%char || Ascii.eqb c dq.

(** [starts_with p s] is [Some rest] when [s = p ++ rest]. *)
Fixpoint starts_with (p s : string) : option string :=
  match p with
  | EmptyString => Some s
  | String a p' =>
      match s with
      | String b s' => if Ascii.eqb a b then starts_with p' s' else None
      | EmptyString => None
      end
  end.

(** [String.prototype.includes]. *)
Fixpoint includes (hay needle : string) : bool :=
  match starts_with needle hay with
  | Some _ => true
  | None =>
      match hay with
      | EmptyString => false
      | String _ hay' => includes hay' needle
      end
  end.

(** Greedy [\s*]: no later alternative of the patterns below can start
    with a white-space character, so backtracking never shortens it. *)
Fixpoint skip_spaces (s : string) : string :=
  match s with
  | String c s' => if is_space c then skip_spaces s' else s
  | EmptyString => EmptyString
  end.

(** Greedy [[^Q]*]: the longest run without a quote, and what follows. *)
Fixpoint span_name (s : string) : string * string :=
  match s with
  | String c s' =>
      if is_quote c then (EmptyString, s)
      else let (n, r) := span_name s' in (String c n, r)
  | EmptyString => (EmptyString, EmptyString)
  end.

(** [Q([^Q]+)Q] at the head of [s]: the captured name and the
    rest after the closing quote. *)
Definition quoted_name (s : string) : option (string * string) :=
  match s with
  | String q r =>
      if is_quote q then
        match span_name r with
        | (EmptyString, _) => None
        | (n, String _ r') => Some (n, r')
        | (_, EmptyString) => None
        end
      else None
  | EmptyString => None
  end.

(** Lazy [[\s\S]*?] followed by a literal character [c]: the text before
    the first [c], and what follows it. *)
Fixpoint until_char (c : ascii) (s : string) : option (string * string) :=
  match s with
  | String a s' =>
      if Ascii.eqb a c then Some (EmptyString, s')
      else match until_char c s' with
           | Some (g, r) => Some (String a g, r)
           | None => None
           end
  | EmptyString => None
  end.

(** The number of code units a match consumed, from the text at its
    start and the text after it. *)
Definition consumed (s rest : string) : nat :=
  String.length s - String.length rest.

(** A [/g] regular expression driven by [exec] in a loop: [m s] matches
    at the head of [s] and yields the capture with the length of the
    match; after a match the search resumes behind it ([lastIndex]),
    otherwise one code unit further.  [skip] counts the code units of the
    previous match still to pass. *)
Fixpoint exec_all (m : string -> option (string * nat))
         (skip : nat) (s : string) : list string :=
  match s with
  | EmptyString => []
  | String _ s' =>
      match skip with
      | S k => exec_all m k s'
      | O =>
          match m s with
          | Some (g, len) => g :: exec_all m (len - 1) s'
          | None => exec_all m 0 s'
          end
      end
  end.

(** [String.prototype.match] without [/g]: the leftmost match. *)
Fixpoint first_match (m : string -> option string) (s : string)
  : option string :=
  match m s with
  | Some g => Some g
  | None =>
      match s with
      | EmptyString => None
      | String _ s' => first_match m s'
      end
  end.

(** [/tools:\s*\[([\s\S]*?)\]/] at the head of [s]. *)
Definition re_tools_at (s : string) : option string :=
  match starts_with "tools:" s with
  | Some r =>
      match skip_spaces r with
      | String c r' =>
          if Ascii.eqb c "["%char then
            match until_char "]"%char r' with
            | Some (g, _) => Some g
            | None => None
            end
          else None
      | EmptyString => None
      end
  | None => None
  end.

(** [/name:\s*Q([^Q]+)Q/g] at the head of [s]. *)
Definition re_name_at (s : string) : option (string * nat) :=
  match starts_with "name:" s with
  | Some r =>
      match quoted_name (skip_spaces r) with
      | Some (n, rest) => Some (n, consumed s rest)
      | None => None
      end
  | None => None
  end.

(** [/case\s*Q([^Q]+)Q\s*:/g] at the head of [s]. *)
Definition re_case_at (s : string) : option (string * nat) :=
  match starts_with "case" s with
  | Some r =>
      match quoted_name (skip_spaces r) with
      | Some (n, rest) =>
          match skip_spaces rest with
          | String c rest' =>
              if Ascii.eqb c ":"%char then Some (n, consumed s rest')
              else None
          | EmptyString => None
          end
      | None => None
      end
  | None => None
  end.

(** [/request\.params\.name\s*===?\s*Q([^Q]+)Q/g] at the head of [s]. *)
Definition re_if_at (s : string) : option (string * nat) :=
  match starts_with "request.params.name" s with
  | Some r =>
      match starts_with "==" (skip_spaces r) with
      | Some r1 =>
          let r2 := match starts_with "=" r1 with
                    | Some r' => r'
                    | None => r1
                    end in
          match quoted_name (skip_spaces r2) with
          | Some (n, rest) => Some (n, consumed s rest)
          | None => None
          end
      | None => None
      end
  | None => None
  end.

(** Greedy [\s*] followed by [\n]: the white-space run at the head of [s]
    holds a line feed. *)
Fixpoint spaces_then_lf (s : string) : bool :=
  match s with
  | String c s' =>
      if Ascii.eqb c lf then true
      else if is_space c then spaces_then_lf s' else false
  | EmptyString => false
  end.

(** The lookahead [(?=\},?\s*\n)] at the head of [s]. *)
Definition schema_end (s : string) : bool :=
  match s with
  | String c r =>
      if Ascii.eqb c "}"%char then
        match starts_with "," r with
        | Some r' => spaces_then_lf r'
        | None => spaces_then_lf r
        end
      else false
  | EmptyString => false
  end.

(** Lazy [([\s\S]*?)] before the lookahead: the shortest text after
    which [schema_end] holds.  The lookahead consumes nothing, so the
    rest starts at the closing brace. *)
Fixpoint until_schema_end (s : string) : option (string * string) :=
  if schema_end s then Some (EmptyString, s)
  else match s with
       | String a s' =>
           match until_schema_end s' with
           | Some (g, r) => Some (String a g, r)
           | None => None
           end
       | EmptyString => None
       end.

(** [/inputSchema:\s*\{([\s\S]*?)(?=\},?\s*\n)/g] at the head of [s]. *)
Definition re_schema_at (s : string) : option (string * nat) :=
  match starts_with "inputSchema:" s with
  | Some r =>
      match skip_spaces r with
      | String c r' =>
          if Ascii.eqb c "{"%char then
            match until_schema_end r' with
            | Some (g, rest) => Some (g, consumed s rest)
            | None => None
            end
          else None
      | EmptyString => None
      end
  | None => None
  end.

(** [l.length === 0]. *)
Definition is_empty {A} (l : list A) : bool :=
  match l with [] => true | _ => false end.

(** [Array.prototype.join]. *)
Fixpoint join (sep : string) (l : list string) : string :=
  match l with
  | [] => EmptyString
  | [x] => x
  | x :: l' => x ++ sep ++ join sep l'
  end.

(** A JavaScript [Set] of strings: insertion order, no duplicates. *)
Definition sset := set string.
Definition sadd (x : string) (s : sset) : sset := set_add string_dec x s.
Definition shas (s : sset) (x : string) : bool := set_mem string_dec x s.

(** [for (...) set.add(x)] over the matches of an [exec] loop. *)
Definition add_all (xs : list string) (s : sset) : sset :=
  fold_left (fun acc x => sadd x acc) xs s.

End Js.

(** An awaited call: the promise is fulfilled with a value or rejected
    with an [Error] whose [message] is given. *)
Inductive Outcome (A : Type) : Type :=
| Returns (a : A)
| Throws (message : string).
Arguments Returns {A} a.
Arguments Throws {A} message.

(* ================================================================== *)
(** ** validator.js                                                    *)
(* ================================================================== *)

Module Validator.
Import Js.

(** The object [checkProtocol] returns. *)
Record ProtocolResult := {
  compliant : bool;
  issues : list string
}.

(** [result.compliant = false; result.issues.push(msg)]. *)
Definition fatal (msg : string) (r : ProtocolResult) : ProtocolResult :=
  {| compliant := false; issues := app (issues r) [msg] |}.

(** [result.issues.push(msg)] alone. *)
Definition note (msg : string) (r : ProtocolResult) : ProtocolResult :=
  {| compliant := compliant r; issues := app (issues r) [msg] |}.

Definition missing_handler_msg (tool : string) : string :=
  "Missing tool handler for '" ++ tool ++ "'".

Definition undeclared_msg (tool : string) : string :=
  "Handler for undeclared tool '" ++ tool ++ "'".

Definition schema_msg : string :=
  "inputSchema missing " ++ dqs ++ "type" ++ dqs ++ " property".

(** The names of the tools listing: the [name:] entries of the first
    bracketed block after [tools:]. *)
Definition definedTools (content : string) : sset :=
  match first_match re_tools_at content with
  | Some listing => add_all (exec_all re_name_at 0 listing) []
  | None => []
  end.

(** The names with a handler: the [case] labels of the whole document,
    then the comparisons against [request.params.name]. *)
Definition handledTools (content : string) : sset :=
  add_all (exec_all re_if_at 0 content)
          (add_all (exec_all re_case_at 0 content) []).

(** The test of one captured [inputSchema] body. *)
Definition schema_lacks_type (schema : string) : bool :=
  negb (includes schema "type:")
  && negb (includes schema (dqs ++ "type" ++ dqs)).

(** [checkProtocol]; the argument is the content of [src/index.ts], or
    [None] when the file does not exist. *)
Definition checkProtocol (index_ts : option string) : ProtocolResult :=
  let result := {| compliant := true; issues := [] |} in
  match index_ts with
  | None => fatal "Missing src/index.ts" result
  | Some content =>
      let result :=
        if negb (includes content "ListToolsRequestSchema")
        then fatal "Missing ListToolsRequestSchema handler" result
        else result in
      let result :=
        if negb (includes content "CallToolRequestSchema")
        then fatal "Missing CallToolRequestSchema handler" result
        else result in
      let defined := definedTools content in
      let handled := handledTools content in
      let result :=
        fold_left (fun r tool =>
                     if negb (shas handled tool)
                     then fatal (missing_handler_msg tool) r
                     else r)
                  defined result in
      let result :=
        fold_left (fun r tool =>
                     if negb (shas defined tool)
                        && negb (String.eqb tool "default")
                     then note (undeclared_msg tool) r
                     else r)
                  handled result in
      let result :=
        fold_left (fun r schema =>
                     if schema_lacks_type schema
                     then note schema_msg r
                     else r)
                  (exec_all re_schema_at 0 content) result in
      if negb (includes content "server.connect")
         && negb (includes content ".run(")
      then fatal "Missing server connection/run call" result
      else result
  end.

(** An entry of [errors] or [warnings].  Of an object entry only the
    properties the pipeline reads are kept ([file], [line], [column] and
    [rule] are not); a bare string is what [processJob] also tests for. *)
Inductive Entry :=
| EString (s : string)
| EObject (type : string) (message : option string) (issue : option string).

(** What the checks that run external tools report. *)
Record TsResult := { ts_success : bool; ts_errors : list Entry }.
Record LintResult := { lint_errors : list Entry; lint_warnings : list Entry }.
Record DepsResult := {
  deps_valid : bool;
  deps_missing : list string;
  deps_warnings : list Entry
}.

(** What the validator finds under a server directory. *)
Record ServerDir := {
  dir_exists : bool;
  checkTypeScript : TsResult;
  checkLint : LintResult;
  index_ts : option string;
  checkDependencies : Outcome DepsResult
}.

Record ValidationResult := {
  valid : bool;
  errors : list Entry;
  warnings : list Entry
}.

(** [validate(serverDir)]. *)
Definition validate (serverDir : string) (d : ServerDir)
  : Outcome ValidationResult :=
  if negb (dir_exists d) then
    Returns {| valid := false;
               errors := [EObject "filesystem"
                            (Some ("Directory not found: " ++ serverDir))
                            None];
               warnings := [] |}
  else
    let errors := [] in
    let warnings := [] in
    let tsResult := checkTypeScript d in
    let errors :=
      if negb (ts_success tsResult) then app errors (ts_errors tsResult)
      else errors in
    let lintResult := checkLint d in
    let warnings :=
      if negb (is_empty (lint_warnings lintResult))
      then app warnings (lint_warnings lintResult)
      else warnings in
    let errors :=
      if negb (is_empty (lint_errors lintResult))
      then app errors (lint_errors lintResult)
      else errors in
    let protocolResult := checkProtocol (index_ts d) in
    let errors :=
      if negb (compliant protocolResult)
      then app errors (map (fun issue => EObject "protocol" None (Some issue))
                           (issues protocolResult))
      else errors in
    match checkDependencies d with
    | Throws m => Throws m
    | Returns depsResult =>
        let errors :=
          if negb (deps_valid depsResult)
          then app errors
                   (map (fun dep =>
                           EObject "dependency"
                             (Some ("Missing required dependency: " ++ dep))
                             None)
                        (deps_missing depsResult))
          else errors in
        let warnings :=
          if negb (is_empty (deps_warnings depsResult))
          then app warnings (deps_warnings depsResult)
          else warnings in
        Returns {| valid := is_empty errors;
                   errors := errors;
                   warnings := warnings |}
    end.

End Validator.


(* ================================================================== *)
(** ** State and exceptions                                            *)
(* ================================================================== *)

(** Code that reads and writes a state [S] and may throw. The state
    reached at a [throw] is kept: a [catch] handler sees every write made
    before it. *)
Module Eff.

Definition M (S A : Type) : Type := S -> S * Outcome A.

Definition ret {S A} (a : A) : M S A := fun s => (s, Returns a).

Definition throw {S A} (message : string) : M S A :=
  fun s => (s, Throws message).

Definition bind {S A B} (m : M S A) (k : A -> M S B) : M S B :=
  fun s =>
    match m s with
    | (s', Returns a) => k a s'
    | (s', Throws e) => (s', Throws e)
    end.

Definition get {S} : M S S := fun s => (s, Returns s).

Definition modify {S} (f : S -> S) : M S unit := fun s => (f s, Returns tt).

(** [await p] for a promise that settles as [o]. *)
Definition await {S A} (o : Outcome A) : M S A := fun s => (s, o).

(** [try { m } catch (err) { h(err.message) }]. *)
Definition try_catch {S A} (m : M S A) (h : string -> M S A) : M S A :=
  fun s =>
    match m s with
    | (s', Returns a) => (s', Returns a)
    | (s', Throws e) => h e s'
    end.

(** [if (c) throw new Error(message)]. *)
Definition throw_if {S} (c : bool) (message : string) : M S unit :=
  if c then throw message else ret tt.

(** Code on a part [T] of the state, run inside the whole state [S]. *)
Definition zoom {S T A} (proj : S -> T) (upd : T -> S -> S) (m : M T A)
  : M S A :=
  fun s => let (t', o) := m (proj s) in (upd t' s, o).

(** [m] keeps the property [I] of the state, whether it returns or
    throws. *)
Definition preserves {S A} (I : S -> Prop) (m : M S A) : Prop :=
  forall s, I s -> I (fst (m s)).

End Eff.

Declare Scope eff_scope.
Delimit Scope eff_scope with eff.
Notation "x <- m ;; k" := (Eff.bind m (fun x => k))
  (at level 61, m at next level, right associativity) : eff_scope.
Notation "m ;; k" := (Eff.bind m (fun _ => k))
  (at level 61, right associativity) : eff_scope.

(** Truthiness of an optional string: [undefined], [null] and the empty
    string are falsy. *)
Definition truthy (o : option string) : bool :=
  match o with
  | Some s => negb (String.eqb s "")
  | None => false
  end.

(** [o || d] for an optional string. *)
Definition or_else (o : option string) (d : string) : string :=
  match o with
  | Some s => if String.eqb s "" then d else s
  | None => d
  end.

(** An optional string inside a template literal. *)
Definition interpolate (o : option string) : string :=
  match o with
  | Some s => s
  | None => "undefined"
  end.

(* ================================================================== *)
(** ** parser.js                                                       *)
(* ================================================================== *)

Module Parser.
Import Js.

Record Auth := { auth_type : option string; env_var : option string }.

Record Tool := { tool_name : option string; tool_description : option string }.

Record Resource := {
  resource_name : option string;
  uri_template : option string
}.

(** The specification object; an absent property is [None]. *)
Record Spec := {
  name : option string;
  description : option string;
  version : option string;
  runtime : option string;
  auth : option Auth;
  tools : option (list Tool);
  resources : option (list Resource)
}.

Definition lower (c : ascii) : bool :=
  let n := nat_of_ascii c in Nat.leb 97 n && Nat.leb n 122.

Definition digit (c : ascii) : bool :=
  let n := nat_of_ascii c in Nat.leb 48 n && Nat.leb n 57.

Fixpoint all_chars (p : ascii -> bool) (s : string) : bool :=
  match s with
  | EmptyString => true
  | String c s' => p c && all_chars p s'
  end.

(** [/^[a-z][a-z0-9-]*$/.test(s)]. *)
Definition kebab (s : string) : bool :=
  match s with
  | String c s' =>
      lower c
      && all_chars (fun a => lower a || digit a || Ascii.eqb a "-"%char) s'
  | EmptyString => false
  end.

(** [/^[a-z][a-z0-9_]*$/.test(s)]. *)
Definition snake (s : string) : bool :=
  match s with
  | String c s' =>
      lower c
      && all_chars (fun a => lower a || digit a || Ascii.eqb a "_"%char) s'
  | EmptyString => false
  end.

(** A number inside a template literal. *)
Definition decimal (n : nat) : string :=
  DecimalString.NilZero.string_of_uint (Nat.to_uint n).

(** The body of [spec.tools.forEach((tool, i) => ...)], from index [i]. *)
Fixpoint tool_errors (i : nat) (ts : list Tool) : list string :=
  match ts with
  | [] => []
  | tool :: ts' =>
      app (if negb (truthy (tool_name tool))
           then ["Tool " ++ decimal i ++ ": missing name"] else [])
     (app (if negb (truthy (tool_description tool))
           then ["Tool " ++ decimal i ++ ": missing description"] else [])
     (app (if truthy (tool_name tool)
              && negb (snake (interpolate (tool_name tool)))
           then ["Tool " ++ interpolate (tool_name tool)
                 ++ ": must be snake_case"] else [])
          (tool_errors (S i) ts')))
  end.

(** [spec.auth.type !== 'none']. *)
Definition auth_not_none (a : Auth) : bool :=
  match auth_type a with
  | Some t => negb (String.eqb t "none")
  | None => true
  end.

(** [validate(spec)]: the list of error texts. *)
Definition validate (spec : Spec) : list string :=
  app (if negb (truthy (name spec))
       then ["Missing required field: name"] else [])
 (app (if negb (truthy (description spec))
       then ["Missing required field: description"] else [])
 (app (match tools spec with
       | Some (_ :: _) => []
       | _ => ["At least one tool is required"]
       end)
 (app (if truthy (name spec) && negb (kebab (interpolate (name spec)))
       then ["Name must be kebab-case starting with letter"] else [])
 (app (match tools spec with
       | Some ts => tool_errors 0 ts
       | None => []
       end)
      (match auth spec with
       | Some a =>
           if auth_not_none a && negb (truthy (env_var a))
           then ["Auth requires env_var when type is not "
                 ++ dqs ++ "none" ++ dqs] else []
       | None => []
       end))))).

(** What the model call and [JSON.parse] give for one prompt. *)
Inductive Reply :=
| ApiError (message : string)
    (** [messages.create] rejects, or the response holds no text *)
| NotJson (message : string)
    (** [JSON.parse] throws an error with this message *)
| NotObject (message : string)
    (** the text is JSON for [null] or a primitive; storing the defaults
        throws a [TypeError] with this message *)
| Object (spec : Spec).

(** The four assignments under [// Apply defaults]. *)
Definition apply_defaults (runtime : string) (spec : Spec) : Spec :=
  {| name := name spec;
     description := description spec;
     version := Some (or_else (version spec) "1.0.0");
     runtime := Some runtime;
     auth := match auth spec with
             | Some a => Some a
             | None => Some {| auth_type := Some "none"; env_var := None |}
             end;
     tools := tools spec;
     resources := match resources spec with
                  | Some r => Some r
                  | None => Some []
                  end |}.

(** [parse(description, { runtime, validate })], given the reply to its
    prompt. *)
Definition parse (reply : Reply) (runtime : string) (validate_opt : bool)
  : Outcome Spec :=
  match reply with
  | ApiError m => Throws m
  | NotJson m => Throws ("Failed to parse LLM response as JSON: " ++ m)
  | NotObject m => Throws m
  | Object raw =>
      let spec := apply_defaults runtime raw in
      if validate_opt then
        let errors := validate spec in
        if negb (is_empty errors)
        then Throws ("Spec validation failed: " ++ join ", " errors)
        else Returns spec
      else Returns spec
  end.

End Parser.

(* ================================================================== *)
(** ** The collaborators of the pipeline                               *)
(* ================================================================== *)

(** Milliseconds since the epoch, as [new Date()] gives them. *)
Definition Date := Z.

(** What [MCPGenerator.generate] resolves to. *)
Record GenResult := { serverDir : string; files : list string }.

(** What [MCPPackager.package] resolves to.  The object carries
    [success], [manifestPath] and the step lists, and no [packagePath]
    property. *)
Record PkgResult := { pkg_success : bool; manifestPath : option string }.

(** [pkgResult.packagePath]: a property the object does not have. *)
Definition packagePath (r : PkgResult) : option string := None.

(** The collaborators of one run.  Of the generator and the packager,
    which write files and run commands, only the settled promise is
    kept. *)
Record World := {
  ANTHROPIC_API_KEY : option string;
    (** [process.env.ANTHROPIC_API_KEY] *)
  llm : string -> string -> Parser.Reply;
    (** description and runtime of the prompt to the reply *)
  generate : Parser.Spec -> string -> Outcome GenResult;
  server_dir : string -> Validator.ServerDir;
    (** what the validator finds under a path *)
  package : string -> string -> Outcome PkgResult;
    (** server directory and runtime *)
  init_failure : option string;
    (** the message, when creating the directory or opening the database
        file throws *)
  generateId : string;
    (** [mcp_<time>_<random>] *)
  now_iso : string;
    (** [new Date().toISOString()] *)
  generateJobId : string;
    (** [job_<time>_<random hex>] *)
  now : Date
}.

(* ================================================================== *)
(** ** registry.js                                                     *)
(* ================================================================== *)

Module Registry.
Import Js Eff.
Local Open Scope eff_scope.

(** A row of [mcp_servers].  The [spec] column is represented by the
    value whose JSON text it stores, [claude_config] by its JSON text. *)
Record Row := {
  id : string;
  name : string;
  version : string;
  description : string;
  spec : Parser.Spec;
  package_path : option string;
  docker_image : option string;
  claude_config : string;
  created_at : string;
  updated_at : string
}.

Definition Table := list Row.

(** The registry object: whether [this.db] is set, and the table in the
    database file. *)
Record State := { opened : bool; table : Table }.

(** The argument of [register]; an absent property is [None]. *)
Record Manifest := {
  m_name : option string;
  m_version : option string;
  m_description : option string;
  m_spec : option Parser.Spec;
  m_package_path : option string;
  m_docker_image : option string;
  m_claude_config : option string
}.

(** The object [register] returns. *)
Record Registered := {
  r_id : string;
  r_name : string;
  r_version : string;
  action : string
}.

(** The object [remove] returns. *)
Record Removed := {
  removed : bool;
  reason : option string;
  removed_name : option string
}.

(** [const { x = d } = manifest]: the default stands in for an absent
    property only. *)
Definition default {A} (o : option A) (d : A) : A :=
  match o with
  | Some a => a
  | None => d
  end.

(** The [spec = {}] default. *)
Definition empty_spec : Parser.Spec :=
  {| Parser.name := None; Parser.description := None;
     Parser.version := None; Parser.runtime := None;
     Parser.auth := None; Parser.tools := None;
     Parser.resources := None |}.

(** [init()]: [CREATE TABLE IF NOT EXISTS] keeps the rows. *)
Definition init (w : World) : M State unit :=
  match init_failure w with
  | Some m => throw m
  | None => modify (fun st => {| opened := true; table := table st |})
  end.

(** [if (!this.db) await this.init()]. *)
Definition ensure_db (w : World) : M State unit :=
  st <- get ;;
  if negb (opened st) then init w else ret tt.

(** [SELECT id FROM mcp_servers WHERE name = ?], first row. *)
Definition select_by_name (n : string) (t : Table) : option Row :=
  find (fun r => String.eqb (name r) n) t.

(** [UPDATE mcp_servers SET ... WHERE name = ?]. *)
Definition update_by_name (n : string) (f : Row -> Row) (t : Table)
  : Table :=
  map (fun r => if String.eqb (name r) n then f r else r) t.

(** [INSERT INTO mcp_servers ...] under [id TEXT PRIMARY KEY] and
    [name TEXT UNIQUE NOT NULL]. *)
Definition insert (row : Row) : M State unit :=
  st <- get ;;
  if existsb (fun r => String.eqb (id r) (id row)) (table st)
  then throw "UNIQUE constraint failed: mcp_servers.id"
  else if existsb (fun r => String.eqb (name r) (name row)) (table st)
  then throw "UNIQUE constraint failed: mcp_servers.name"
  else modify (fun st => {| opened := opened st;
                            table := app (table st) [row] |}).

(** [DELETE FROM mcp_servers WHERE name = ?]. *)
Definition delete_by_name (n : string) (t : Table) : Table :=
  filter (fun r => negb (String.eqb (name r) n)) t.

(** [register(manifest)]. *)
Definition register (w : World) (manifest : Manifest) : M State Registered :=
  ensure_db w ;;
  let version := default (m_version manifest) "1.0.0" in
  let description := default (m_description manifest) "" in
  let spec := default (m_spec manifest) empty_spec in
  let package_path := m_package_path manifest in
  let docker_image := m_docker_image manifest in
  let claude_config := default (m_claude_config manifest) "{}" in
  throw_if (negb (truthy (m_name manifest))) "Server name is required" ;;
  let name := interpolate (m_name manifest) in
  let id := generateId w in
  let now := now_iso w in
  st <- get ;;
  match select_by_name name (table st) with
  | Some existing =>
      modify (fun st =>
        {| opened := opened st;
           table := update_by_name name
                      (fun r => {| id := Registry.id r;
                                   name := Registry.name r;
                                   version := version;
                                   description := description;
                                   spec := spec;
                                   package_path := package_path;
                                   docker_image := docker_image;
                                   claude_config := claude_config;
                                   created_at := created_at r;
                                   updated_at := now |})
                      (table st) |}) ;;
      ret {| r_id := Registry.id existing; r_name := name;
             r_version := version; action := "updated" |}
  | None =>
      insert {| id := id; name := name; version := version;
                description := description; spec := spec;
                package_path := package_path;
                docker_image := docker_image;
                claude_config := claude_config;
                created_at := now; updated_at := now |} ;;
      ret {| r_id := id; r_name := name; r_version := version;
             action := "created" |}
  end.

(** [remove(name)]. *)
Definition remove (w : World) (n : string) : M State Removed :=
  ensure_db w ;;
  st <- get ;;
  match select_by_name n (table st) with
  | None =>
      ret {| removed := false; reason := Some "not_found";
             removed_name := None |}
  | Some _ =>
      modify (fun st => {| opened := opened st;
                           table := delete_by_name n (table st) |}) ;;
      ret {| removed := true; reason := None; removed_name := Some n |}
  end.

(** [get(name, version = null)].  With [name] unique the query ordered
    by [updated_at] has at most one candidate row; [parseRow] is the
    identity on this representation of the columns. *)
Definition get (w : World) (n : string) (v : option string)
  : M State (option Row) :=
  ensure_db w ;;
  st <- Eff.get ;;
  ret (if truthy v
       then find (fun r => String.eqb (name r) n
                           && String.eqb (version r) (interpolate v))
                 (table st)
       else select_by_name n (table st)).

(** [close()]. *)
Definition close : M State unit :=
  modify (fun st => {| opened := false; table := table st |}).

(** The registry states the class can produce, from an empty database
    file: its methods, and a new object on the same file. *)
Inductive reachable : State -> Prop :=
| reach_new : reachable {| opened := false; table := [] |}
| reach_reopen st :
    reachable st -> reachable {| opened := false; table := table st |}
| reach_init w st : reachable st -> reachable (fst (init w st))
| reach_register w m st : reachable st -> reachable (fst (register w m st))
| reach_get w n v st : reachable st -> reachable (fst (get w n v st))
| reach_remove w n st : reachable st -> reachable (fst (remove w n st))
| reach_close st : reachable st -> reachable (fst (close st)).

(** The constraint [name TEXT UNIQUE], and the guard of [register]
    against an empty name. *)
Definition names_ok (t : Table) : Prop :=
  NoDup (map name t) /\ Forall (fun r => name r <> "") t.

(** The number of rows called [n]. *)
Definition rows_named (n : string) (t : Table) : nat :=
  List.length (filter (fun r => String.eqb (name r) n) t).

(** The methods of class [MCPRegistry]. *)
Definition methods : list string :=
  ["init"; "generateId"; "register"; "get"; "list"; "remove"; "parseRow";
   "close"].

End Registry.

(* ================================================================== *)
(** ** api.js                                                          *)
(* ================================================================== *)

Module Api.
Import Js Eff.
Local Open Scope eff_scope.

(** The [result] of a finished job. *)
Record JobResult := {
  res_name : string;
  res_serverDir : string;
  res_package_path : option string;
  res_description : string;
  res_spec : Parser.Spec;
  res_manifest : Registry.Registered;
  res_stages_completed : list string
}.

(** A value of the [jobs] map; an absent property is [None]. *)
Record Job := {
  status : string;
  stage : string;
  created_at : Date;
  completed_at : option Date;
  failed_at : option Date;
  result : option JobResult;
  errors : option (list string);
  stages_completed : option (list string)
}.

(** A JavaScript [Map] with string keys: the entries in insertion order. *)
Definition JsMap (V : Type) : Type := list (string * V).

Fixpoint map_get {V} (k : string) (m : JsMap V) : option V :=
  match m with
  | [] => None
  | (k', v) :: m' => if String.eqb k' k then Some v else map_get k m'
  end.

(** [Map.prototype.set]: a present key keeps its place, a new one goes
    last. *)
Fixpoint map_set {V} (k : string) (v : V) (m : JsMap V) : JsMap V :=
  match m with
  | [] => [(k, v)]
  | (k', v') :: m' =>
      if String.eqb k' k then (k, v) :: m' else (k', v') :: map_set k v m'
  end.

(** The collaborators a job awaits. *)
Inductive Collaborator := Parse | Generate | Validate | Package | Register.

(** What a run leaves behind, oldest first: the collaborator calls it
    started and the records it stored. *)
Inductive Event :=
| Called (c : Collaborator)
| Stored (jobId : string) (record : Job).

(** The module state of [api.js]. *)
Record AppState := {
  jobs : JsMap Job;
  registry : Registry.State;
  registryInitialized : bool;
  trace : list Event
}.

Definition with_registry (r : Registry.State) (st : AppState) : AppState :=
  {| jobs := jobs st; registry := r;
     registryInitialized := registryInitialized st; trace := trace st |}.

Definition log (e : Event) (st : AppState) : AppState :=
  {| jobs := jobs st; registry := registry st;
     registryInitialized := registryInitialized st;
     trace := app (trace st) [e] |}.

(** [jobs.set(jobId, record)]. *)
Definition jobs_set (jobId : string) (record : Job) (st : AppState)
  : AppState :=
  log (Stored jobId record)
      {| jobs := map_set jobId record (jobs st); registry := registry st;
         registryInitialized := registryInitialized st;
         trace := trace st |}.

(** [ensureRegistry()]. *)
Definition ensureRegistry (w : World) : M AppState unit :=
  st <- get ;;
  if negb (registryInitialized st) then
    zoom registry with_registry (Registry.init w) ;;
    modify (fun st => {| jobs := jobs st; registry := registry st;
                         registryInitialized := true; trace := trace st |})
  else ret tt.

(** The locals of one [processJob] call next to the module state: the
    [job] object fetched at the start and the [stages] array. *)
Record Frame := {
  globals : AppState;
  job : Job;
  stages : list string
}.

Definition with_app (a : AppState) (f : Frame) : Frame :=
  {| globals := a; job := job f; stages := stages f |}.

(** [job.stage = s] on the local object. *)
Definition with_stage (s : string) (j : Job) : Job :=
  {| status := status j; stage := s; created_at := created_at j;
     completed_at := completed_at j; failed_at := failed_at j;
     result := result j; errors := errors j;
     stages_completed := stages_completed j |}.

(** [job.stage = s; jobs.set(jobId, { ...job }); stages.push(n)].  The
    first assignment also reaches the object still held by the map, which
    the [set] that follows at once replaces by the copy. *)
Definition enter (jobId s n : string) : M Frame unit :=
  modify (fun f =>
    let job' := with_stage s (job f) in
    {| globals := jobs_set jobId job' (globals f);
       job := job';
       stages := app (stages f) [n] |}).

(** [await c(...)] for a collaborator whose promise settles as [o]. *)
Definition call {A} (c : Collaborator) (o : Outcome A) : M Frame A :=
  modify (fun f => with_app (log (Called c) (globals f)) f) ;;
  await o.

(** [typeof e === 'string' ? e : (e.message || String(e))]. *)
Definition entry_msg (e : Validator.Entry) : string :=
  match e with
  | Validator.EString s => s
  | Validator.EObject _ message _ => or_else message "[object Object]"
  end.

(** The filter that selects [criticalErrors]. *)
Definition critical (e : Validator.Entry) : bool :=
  let msg := entry_msg e in
  includes msg "TypeScript" || includes msg "import"
  || includes msg "syntax".

(** The text [join] puts for an entry. *)
Definition entry_text (e : Validator.Entry) : string :=
  match e with
  | Validator.EString s => s
  | Validator.EObject _ _ _ => "[object Object]"
  end.

(** The record stored under [// Complete]. *)
Definition complete_record (w : World) (j : Job) (r : JobResult) : Job :=
  {| status := "complete";
     stage := "done";
     created_at := created_at j;
     completed_at := Some (now w);
     failed_at := None;
     result := Some r;
     errors := None;
     stages_completed := None |}.

(** The record stored by the [catch] block. *)
Definition failed_record (w : World) (j : Job) (message : string)
           (stages : list string) : Job :=
  {| status := "failed";
     stage := stage j;
     created_at := created_at j;
     completed_at := None;
     failed_at := Some (now w);
     result := None;
     errors := Some [message];
     stages_completed := Some stages |}.

(** The body of the [try] block of [processJob]; [parsed] is how the
    promise of [parser.parse(description)] settles. *)
Definition pipeline (w : World) (parsed : Outcome Parser.Spec)
           (jobId runtime : string) : M Frame unit :=
  throw_if (negb (truthy (ANTHROPIC_API_KEY w)))
           "ANTHROPIC_API_KEY environment variable not set" ;;
  enter jobId "parsing" "parse" ;;
  spec <- call Parse parsed ;;
  throw_if (negb (truthy (Parser.name spec)))
           "Parser failed to generate valid spec" ;;
  let name := interpolate (Parser.name spec) in
  enter jobId "generating" "generate" ;;
  genResult <- call Generate
                 (generate w spec
                    ("/opt/swarm-mcp-factory/output/" ++ name)) ;;
  let serverDir := serverDir genResult in
  enter jobId "validating" "validate" ;;
  validation <- call Validate
                  (Validator.validate serverDir (server_dir w serverDir)) ;;
  (if negb (Validator.valid validation) then
     let criticalErrors := filter critical (Validator.errors validation) in
     throw_if (Nat.ltb 0 (List.length criticalErrors))
              ("Validation failed: "
               ++ join "; " (map entry_text criticalErrors))
   else ret tt) ;;
  enter jobId "packaging" "package" ;;
  pkgResult <- call Package (package w serverDir runtime) ;;
  enter jobId "registering" "register" ;;
  zoom globals with_app (ensureRegistry w) ;;
  manifest <- (modify (fun f => with_app (log (Called Register) (globals f)) f) ;;
               zoom globals with_app
                 (zoom registry with_registry
                    (Registry.register w
                       {| Registry.m_name := Parser.name spec;
                          Registry.m_version :=
                            Some (or_else (Parser.version spec) "1.0.0");
                          Registry.m_description :=
                            Some (or_else (Parser.description spec) "");
                          Registry.m_spec := Some spec;
                          Registry.m_package_path := packagePath pkgResult;
                          Registry.m_docker_image := None;
                          Registry.m_claude_config := None |}))) ;;
  modify (fun f =>
    with_app
      (jobs_set jobId
         (complete_record w (job f)
            {| res_name := name;
               res_serverDir := serverDir;
               res_package_path := packagePath pkgResult;
               res_description := or_else (Parser.description spec) "";
               res_spec := spec;
               res_manifest := manifest;
               res_stages_completed := stages f |})
         (globals f))
      f).

(** The [catch] block of [processJob]. *)
Definition on_error (w : World) (jobId message : string) : M Frame unit :=
  modify (fun f =>
    with_app
      (jobs_set jobId (failed_record w (job f) message (stages f))
                (globals f))
      f).

(** [processJob] around a parser whose promise settles as [parsed].
    For an id the map does not hold, [job] is [undefined]: the [try]
    block throws a [TypeError], the [catch] block throws again on
    [job.stage], and the call rejects with the state untouched. *)
Definition processJob_with (parsed : Outcome Parser.Spec) (w : World)
           (jobId : string) (runtime : option string) : M AppState unit :=
  fun st =>
    match map_get jobId (jobs st) with
    | None =>
        (st, Throws "Cannot read properties of undefined (reading 'stage')")
    | Some j =>
        let (f, o) :=
          try_catch
            (pipeline w parsed jobId (Registry.default runtime "node"))
            (on_error w jobId)
            {| globals := st; job := j; stages := [] |} in
        (globals f, o)
    end.

(** [processJob(jobId, description, runtime = 'node')], with the parser
    of [parser.js]. *)
Definition processJob (w : World) (jobId description : string)
           (runtime : option string) : M AppState unit :=
  processJob_with
    (Parser.parse (llm w description "typescript") "typescript" true)
    w jobId runtime.

(** What a settled call on the registry object gives. *)
Inductive Resolved :=
| RNull
| RRow (r : Registry.Row)
| RRemoved (r : Registry.Removed)
| ROther.

(** What a handler holds after a call: the value of an awaited call, or
    the promise itself. *)
Inductive Value :=
| Awaited (v : Resolved)
| Promise (settled : Outcome Resolved).

(** Truthiness: [null] is falsy, every object is truthy, a [Promise]
    included. *)
Definition js_truthy (v : Value) : bool :=
  match v with
  | Awaited RNull => false
  | _ => true
  end.

(** What [JSON.stringify] makes of a value. *)
Inductive Json :=
| JNull
| JEmptyObject
    (** the text of an object without enumerable own properties, which
        a [Promise] is *)
| JRow (r : Registry.Row)
| JRemoved (r : Registry.Removed)
| JOther.

Definition stringify (v : Value) : Json :=
  match v with
  | Awaited RNull => JNull
  | Awaited (RRow r) => JRow r
  | Awaited (RRemoved r) => JRemoved r
  | Awaited ROther => JOther
  | Promise _ => JEmptyObject
  end.

(** An [async] method called and not awaited: its body runs on the
    registry, and the caller holds the promise. *)
Definition async {A} (inj : A -> Resolved) (m : M Registry.State A)
  : M AppState Value :=
  fun st =>
    let (r, o) := m (registry st) in
    (with_registry r st,
     Returns (Promise match o with
                      | Returns a => Returns (inj a)
                      | Throws e => Throws e
                      end)).

(** [registry.<method>(name)].  A property the class does not define is
    [undefined], and calling it throws a [TypeError]; of the methods,
    [get] and [remove] take a server name. *)
Definition registry_call (w : World) (method name : string)
  : M AppState Value :=
  if negb (existsb (String.eqb method) Registry.methods)
  then throw ("registry." ++ method ++ " is not a function")
  else if String.eqb method "get"
  then async (fun r => match r with Some row => RRow row | None => RNull end)
             (Registry.get w name None)
  else if String.eqb method "remove"
  then async RRemoved (Registry.remove w name)
  else ret (Awaited ROther).

(** The bodies the handlers send. *)
Inductive Body :=
| BError (error : string)
| BJson (json : Json)
| BDeleted (success : bool) (name : string).

Record Response := { code : nat; body : Body }.

(** [GET /api/servers/:name]. *)
Definition get_server (w : World) (name : string) : M AppState Response :=
  try_catch
    (ensureRegistry w ;;
     server <- registry_call w "get" name ;;
     if negb (js_truthy server)
     then ret {| code := 404; body := BError "Server not found" |}
     else ret {| code := 200; body := BJson (stringify server) |})
    (fun message => ret {| code := 500; body := BError message |}).

(** [DELETE /api/servers/:name]. *)
Definition delete_server (w : World) (name : string)
  : M AppState Response :=
  try_catch
    (ensureRegistry w ;;
     deleted <- registry_call w "unregister" name ;;
     if negb (js_truthy deleted)
     then ret {| code := 404; body := BError "Server not found" |}
     else ret {| code := 200; body := BDeleted true name |})
    (fun message => ret {| code := 500; body := BError message |}).

(** What [POST /api/generate] answers. *)
Inductive Accepted :=
| Rejected (code : nat) (error : string)
| Queued (job_id : string) (status : string).

(** [POST /api/generate], up to the response; [processJob] runs later,
    from [setImmediate]. *)
Definition post_generate (w : World) (description : option string)
  : M AppState Accepted :=
  if negb (truthy description)
  then ret (Rejected 400 "Missing or invalid description field")
  else
    let jobId := generateJobId w in
    modify (jobs_set jobId
              {| status := "processing"; stage := "queued";
                 created_at := now w; completed_at := None;
                 failed_at := None; result := None; errors := None;
                 stages_completed := None |}) ;;
    ret (Queued jobId "processing").

(** An element of the array [GET /api/jobs] sends. *)
Record JobSummary := {
  job_id : string;
  s_status : string;
  s_stage : string;
  s_created_at : Date;
  s_result : option string
}.

Definition summary (e : string * Job) : JobSummary :=
  {| job_id := fst e;
     s_status := status (snd e);
     s_stage := stage (snd e);
     s_created_at := created_at (snd e);
     s_result := match result (snd e) with
                 | Some r => Some (res_name r)
                 | None => None
                 end |}.

(** [Array.prototype.slice(start)]. *)
Definition slice {A} (start : Z) (l : list A) : list A :=
  let len := Z.of_nat (List.length l) in
  let k := if (start <? 0)%Z then Z.max (len + start) 0
           else Z.min start len in
  skipn (Z.to_nat k) l.

(** [parseInt(req.query.limit) || 50]; the argument is what [parseInt]
    gives, [None] for [NaN]. *)
Definition limit_of (parsed : option Z) : Z :=
  match parsed with
  | Some z => if (z =? 0)%Z then 50%Z else z
  | None => 50%Z
  end.

(** [GET /api/jobs]: the [jobs] array of the response. *)
Definition get_jobs (parsed : option Z) (st : AppState) : list JobSummary :=
  let limit := limit_of parsed in
  map summary (slice (- limit)%Z (jobs st)).

(** [startup()] on a database file holding table [t]: the state in which
    the server listens, or [None] when the process exits. *)
Definition startup (w : World) (t : Registry.Table) : option AppState :=
  match ensureRegistry w
          {| jobs := [];
             registry := {| Registry.opened := false; Registry.table := t |};
             registryInitialized := false;
             trace := [] |} with
  | (st, Returns _) => Some st
  | (_, Throws _) => None
  end.

(** Most recent first: no element is older than its successor. *)
Fixpoint newest_first (l : list JobSummary) : bool :=
  match l with
  | a :: (b :: _) as rest =>
      (s_created_at b <=? s_created_at a)%Z && newest_first rest
  | _ => true
  end.

(** What a record with a terminal status must look like: a result and
    a completion time and nothing of a failure, or a non-empty error
    list and a failure time and nothing of a completion. *)
Definition exclusive (j : Job) : Prop :=
  (status j = "complete" ->
   result j <> None /\ completed_at j <> None
   /\ errors j = None /\ failed_at j = None)
  /\ (status j = "failed" ->
      (exists e es, errors j = Some (e :: es)) /\ failed_at j <> None
      /\ result j = None /\ completed_at j = None).

(** Every record the map holds, and every record ever stored, is
    [exclusive]. *)
Definition records_exclusive (st : AppState) : Prop :=
  (forall id j, In (id, j) (jobs st) -> exclusive j)
  /\ (forall id j, In (Stored id j) (trace st) -> exclusive j).

(** The states of a listening server. *)
Inductive serving : AppState -> Prop :=
| serving_startup w t st :
    startup w t = Some st -> serving st
| serving_generate w description st :
    serving st -> serving (fst (post_generate w description st))
| serving_process w jobId description runtime st :
    serving st -> serving (fst (processJob w jobId description runtime st))
| serving_get_server w name st :
    serving st -> serving (fst (get_server w name st))
| serving_delete_server w name st :
    serving st -> serving (fst (delete_server w name st)).

End Api.

(* ================================================================== *)
(** ** Sample documents, worlds and states                             *)
(* ================================================================== *)

Module Samples.
Import Js Eff Api.

(** An [index.ts] that lists [get_forecast] and handles no tool. *)
Definition unhandled_doc : string :=
"server.setRequestHandler(ListToolsRequestSchema, async () => ({
  tools: [
    {
      name: 'get_forecast',
      description: 'Forecast for a city',
      inputSchema: {
        type: 'object',
        properties: {
          city: { type: 'string' }
        },
        required: ['city']
      }
    }
  ]
}));

server.setRequestHandler(CallToolRequestSchema, async (request) => {
  const { name, arguments: args } = request.params;

  switch (name) {
    default:
      throw new Error('Unknown tool');
  }
});

async function main() {
  const transport = new StdioServerTransport();
  await server.connect(transport);
}
".

(** An [index.ts] that handles [get_forecast], which it lists, and
    [legacy_tool] and a quoted [default], which it does not. *)
Definition legacy_doc : string :=
"server.setRequestHandler(ListToolsRequestSchema, async () => ({
  tools: [
    {
      name: 'get_forecast',
      description: 'Forecast for a city',
      inputSchema: {
        type: 'object',
        properties: {
        },
        required: []
      }
    }
  ]
}));

server.setRequestHandler(CallToolRequestSchema, async (request) => {
  const { name, arguments: args } = request.params;

  switch (name) {
    case 'get_forecast':
      return get_forecastTool(client, args);
    case 'legacy_tool':
      return legacyTool(client, args);
    case 'default':
      throw new Error('Unknown tool');
  }
});

async function main() {
  const transport = new StdioServerTransport();
  await server.connect(transport);
}
".

(** A server directory in which every check but the protocol check on
    [doc] is clean. *)
Definition dir_with (doc : string) : Validator.ServerDir :=
  {| Validator.dir_exists := true;
     Validator.checkTypeScript :=
       {| Validator.ts_success := true; Validator.ts_errors := [] |};
     Validator.checkLint :=
       {| Validator.lint_errors := []; Validator.lint_warnings := [] |};
     Validator.index_ts := Some doc;
     Validator.checkDependencies :=
       Returns {| Validator.deps_valid := true;
                  Validator.deps_missing := [];
                  Validator.deps_warnings := [] |} |}.

(** A server directory whose compilation fails. *)
Definition dir_ts_fails (doc : string) : Validator.ServerDir :=
  {| Validator.dir_exists := true;
     Validator.checkTypeScript :=
       {| Validator.ts_success := false;
          Validator.ts_errors :=
            [Validator.EObject "typescript"
               (Some "TypeScript compilation failed") None] |};
     Validator.checkLint :=
       {| Validator.lint_errors := []; Validator.lint_warnings := [] |};
     Validator.index_ts := Some doc;
     Validator.checkDependencies :=
       Returns {| Validator.deps_valid := true;
                  Validator.deps_missing := [];
                  Validator.deps_warnings := [] |} |}.

Definition forecast_tool : Parser.Tool :=
  {| Parser.tool_name := Some "get_forecast";
     Parser.tool_description := Some "Forecast for a city" |}.

(** The JSON object of a reply for a weather server. *)
Definition weather_json : Parser.Spec :=
  {| Parser.name := Some "weather";
     Parser.description := Some "Weather lookup";
     Parser.version := None; Parser.runtime := None;
     Parser.auth := None;
     Parser.tools := Some [forecast_tool];
     Parser.resources := None |}.

(** The same object without its [name]. *)
Definition nameless_json : Parser.Spec :=
  {| Parser.name := None;
     Parser.description := Some "Weather lookup";
     Parser.version := None; Parser.runtime := None;
     Parser.auth := None;
     Parser.tools := Some [forecast_tool];
     Parser.resources := None |}.

(** A world in which the model replies [reply], the generated directory
    looks like [dir], and the other collaborators succeed. *)
Definition world (reply : Parser.Reply) (dir : Validator.ServerDir)
  : World :=
  {| ANTHROPIC_API_KEY := Some "sk-test";
     llm := fun _ _ => reply;
     generate := fun spec out =>
       Returns {| serverDir := out ++ "/mcp-"
                               ++ interpolate (Parser.name spec);
                  files := ["package.json"; "src/index.ts"] |};
     server_dir := fun _ => dir;
     package := fun _ _ =>
       Returns {| pkg_success := true;
                  manifestPath := Some "manifest.json" |};
     init_failure := None;
     generateId := "mcp_1_abc123";
     now_iso := "2025-01-01T00:00:00.000Z";
     generateJobId := "job_1_0a0b0c0d";
     now := 1000%Z |}.

(** A job as [POST /api/generate] stores it. *)
Definition queued_job (t : Date) : Job :=
  {| status := "processing"; stage := "queued"; created_at := t;
     completed_at := None; failed_at := None; result := None;
     errors := None; stages_completed := None |}.

(** A listening server with one queued job and an empty registry. *)
Definition one_job : AppState :=
  {| jobs := [("job_1_0a0b0c0d", queued_job 900%Z)];
     registry := {| Registry.opened := true; Registry.table := [] |};
     registryInitialized := true;
     trace := [] |}.

(** A registry row for [weather]. *)
Definition weather_row : Registry.Row :=
  {| Registry.id := "mcp_0_zzz999";
     Registry.name := "weather";
     Registry.version := "0.9.0";
     Registry.description := "Old weather";
     Registry.spec := Registry.empty_spec;
     Registry.package_path := None;
     Registry.docker_image := None;
     Registry.claude_config := "{}";
     Registry.created_at := "2024-01-01T00:00:00.000Z";
     Registry.updated_at := "2024-01-01T00:00:00.000Z" |}.

(** A listening server whose registry holds [weather]. *)
Definition with_weather : AppState :=
  {| jobs := [];
     registry := {| Registry.opened := true;
                    Registry.table := [weather_row] |};
     registryInitialized := true;
     trace := [] |}.

(** Three jobs, created in the order [job_1], [job_2], [job_3]. *)
Definition three_jobs : AppState :=
  {| jobs := [("job_1", queued_job 1%Z); ("job_2", queued_job 2%Z);
              ("job_3", queued_job 3%Z)];
     registry := {| Registry.opened := true; Registry.table := [] |};
     registryInitialized := true;
     trace := [] |}.

(** The same world with another generated registry id. *)
Definition with_id (i : string) (w : World) : World :=
  {| ANTHROPIC_API_KEY := ANTHROPIC_API_KEY w; llm := llm w;
     generate := generate w; server_dir := server_dir w;
     package := package w; init_failure := init_failure w;
     generateId := i; now_iso := now_iso w;
     generateJobId := generateJobId w; now := now w |}.

(** A world whose model reply and directory are fine. *)
Definition fine_world : World :=
  world (Parser.Object weather_json) (dir_with legacy_doc).

Definition manifest_named (n v : string) : Registry.Manifest :=
  {| Registry.m_name := Some n; Registry.m_version := Some v;
     Registry.m_description := None; Registry.m_spec := None;
     Registry.m_package_path := None; Registry.m_docker_image := None;
     Registry.m_claude_config := None |}.

(** The registry after a first registration of [weather]. *)
Definition weather_registered : Registry.State :=
  fst (Registry.register fine_world (manifest_named "weather" "1.0.0")
         {| Registry.opened := false; Registry.table := [] |}).

(** The state in which a server on an empty database file listens. *)
Definition booted : AppState :=
  {| jobs := [];
     registry := {| Registry.opened := true; Registry.table := [] |};
     registryInitialized := true;
     trace := [] |}.

(** A submission, and the state after its job has run. *)
Definition submitted : AppState :=
  fst (post_generate fine_world (Some "weather lookup tool") booted).

Definition finished : AppState :=
  fst (processJob fine_world "job_1_0a0b0c0d" "weather lookup tool" None
         submitted).

(** A world whose generated document lists a tool it does not handle. *)
Definition unhandled_world : World :=
  world (Parser.Object weather_json) (dir_with unhandled_doc).

(** A world whose model reply lacks the name. *)
Definition nameless_world : World :=
  world (Parser.Object nameless_json) (dir_with legacy_doc).

(** A world whose generated code does not compile. *)
Definition broken_world : World :=
  world (Parser.Object weather_json) (dir_ts_fails legacy_doc).

End Samples.

(* ================================================================== *)
(** ** parser.js: pre-structured specifications                        *)
(* ================================================================== *)

Module Yaml.
Import Js.

(** What [yaml.load] gives for a text. *)
Inductive Loaded :=
| LoadError (message : string)
    (** [yaml.load] throws *)
| LoadedNull (message : string)
    (** the document is empty or [null]; reading [spec.name] throws a
        [TypeError] with this message *)
| LoadedValue (spec : Parser.Spec).
    (** an object, or a scalar, whose properties are all absent *)

(** [parseYAML(yamlString)], given what [yaml.load] makes of the text. *)
Definition parseYAML (loaded : Loaded) : Outcome Parser.Spec :=
  match loaded with
  | LoadError m => Throws m
  | LoadedNull m => Throws m
  | LoadedValue spec =>
      let errors := Parser.validate spec in
      if negb (is_empty errors)
      then Throws ("YAML spec validation failed: " ++ join ", " errors)
      else Returns spec
  end.

End Yaml.

(* ================================================================== *)
(** ** validator.js: the checks behind [validate]                      *)
(* ================================================================== *)

Module Checks.
Import Js Validator.

(** A JSON object with string values: the pairs in the order of the
    text; of two pairs with one key, the later one counts. *)
Definition Obj := list (string * string).

Fixpoint lookup (k : string) (o : Obj) : option string :=
  match o with
  | [] => None
  | (k', v) :: o' =>
      match lookup k o' with
      | Some v' => Some v'
      | None => if String.eqb k' k then Some v else None
      end
  end.

(** The properties of [package.json] that validator and packager read. *)
Record PackageJson := {
  pkg_name : option string;
  pkg_version : option string;
  pkg_description : option string;
  pkg_main : option string;
  scripts : option Obj;
  dependencies : option Obj;
  devDependencies : option Obj;
  engines_node : option string
}.

(** [package.json] as the check finds it. *)
Inductive PkgFile :=
| NoFile
| BadJson (message : string)
    (** [JSON.parse] throws, or the text is JSON for [null] *)
| Parsed (pkg : PackageJson).

(** [{ ...a, ...b }[k]]: a key of [b] hides the same key of [a]. *)
Definition spread_get (a b : option Obj) (k : string) : option string :=
  match match b with Some o => lookup k o | None => None end with
  | Some v => Some v
  | None => match a with Some o => lookup k o | None => None end
  end.

(** [/^(\d+)/]: the digits a text starts with. *)
Fixpoint leading_digits (s : string) : string :=
  match s with
  | String c s' =>
      if Parser.digit c then String c (leading_digits s') else EmptyString
  | EmptyString => EmptyString
  end.

(** [parseInt] of a text of digits. *)
Fixpoint digits_value (acc : N) (s : string) : N :=
  match s with
  | String c s' =>
      digits_value (10 * acc + (N.of_nat (nat_of_ascii c) - 48))%N s'
  | EmptyString => acc
  end.

Definition required : list string := ["@modelcontextprotocol/sdk"; "zod"].

(** [checkDependencies(serverDir)]. *)
Definition checkDependencies (file : PkgFile) : Outcome DepsResult :=
  match file with
  | NoFile =>
      Returns {| deps_valid := false; deps_missing := ["package.json"];
                 deps_warnings := [] |}
  | BadJson m => Throws m
  | Parsed pkg =>
      let deps := spread_get (dependencies pkg) (devDependencies pkg) in
      let missing := filter (fun dep => negb (truthy (deps dep))) required in
      let warnings :=
        if negb (truthy (deps "typescript"))
        then [EObject "dependency"
                (Some "typescript not in devDependencies") None]
        else [] in
      let warnings :=
        if truthy (engines_node pkg) then
          let nodeVersion := interpolate (engines_node pkg) in
          if negb (String.eqb (leading_digits nodeVersion) "")
             && (digits_value 0 (leading_digits nodeVersion) <? 18)%N
          then app warnings
                 [EObject "compatibility"
                    (Some ("Node version " ++ nodeVersion
                           ++ " may be too old for MCP SDK")) None]
          else warnings
        else warnings in
      Returns {| deps_valid := is_empty missing;
                 deps_missing := missing;
                 deps_warnings := warnings |}
  end.

(** What running [tsc --noEmit] gives. *)
Inductive Tsc :=
| TscPasses
| TscFails (parsed : list Entry) (output : string).
    (** [execSync] throws: the entries the loop over the compiler's
        error lines makes, and the captured output *)

(** What [checkTypeScript] finds under the server directory. *)
Record TsView := {
  has_tsconfig : bool;
  has_node_modules : bool;
  has_tsc : bool;
  tsc : Tsc
}.

(** [String.prototype.trim], on code units below 256. *)
Fixpoint trim_end (s : string) : string :=
  match s with
  | String c s' =>
      match trim_end s' with
      | EmptyString => if is_space c then EmptyString
                       else String c EmptyString
      | t => String c t
      end
  | EmptyString => EmptyString
  end.

Definition trim (s : string) : string := trim_end (skip_spaces s).

Definition ts_error (file message : string) : Entry :=
  EObject "typescript" (Some message) None.

(** [checkTypeScript(serverDir)]. *)
Definition checkTypeScript (v : TsView) : TsResult :=
  if negb (has_tsconfig v) then
    {| ts_success := false;
       ts_errors := [ts_error "tsconfig.json" "tsconfig.json not found"] |}
  else if negb (has_node_modules v) then
    {| ts_success := false;
       ts_errors := [ts_error "node_modules"
                       ("node_modules not found - run " ++ dqs
                        ++ "npm install" ++ dqs ++ " first")] |}
  else if negb (has_tsc v) then
    {| ts_success := false;
       ts_errors := [ts_error "typescript"
                       ("typescript not installed - run " ++ dqs
                        ++ "npm install" ++ dqs ++ " first")] |}
  else
    match tsc v with
    | TscPasses => {| ts_success := true; ts_errors := [] |}
    | TscFails parsed output =>
        {| ts_success := false;
           ts_errors :=
             if is_empty parsed
             then [ts_error "unknown"
                     (or_else (Some (trim output))
                              "TypeScript compilation failed")]
             else parsed |}
    end.

End Checks.

(* ================================================================== *)
(** ** generator.js                                                    *)
(* ================================================================== *)

Module Generator.
Import Js.

(** A parameter, a tool and the specification as the templates read
    them; an absent property is [None]. *)
Record Param := {
  p_name : option string;
  p_type : option string;
  p_description : option string;
  p_required : bool
}.

Record Tool := {
  t_name : option string;
  t_description : option string;
  parameters : option (list Param)
}.

Record Spec := {
  name : option string;
  version : option string;
  description : option string;
  tools : list Tool;
  resource_names : option (list (option string))
}.

(** [(a || []).map(f)]. *)
Definition map_or_empty {A B} (f : A -> B) (l : option (list A)) : list B :=
  match l with
  | Some xs => map f xs
  | None => []
  end.

Definition lf1 : string := String lf EmptyString.

(** The text of one property of [inputSchema.properties]. *)
Definition gen_param (p : Param) : string :=
  "          " ++ interpolate (p_name p) ++ ": { type: '"
  ++ interpolate (p_type p) ++ "'"
  ++ (if truthy (p_description p)
      then ", description: '" ++ interpolate (p_description p) ++ "'"
      else "")
  ++ " }".

(** The text of one element of the [tools] listing. *)
Definition gen_listing (t : Tool) : string :=
  "    {
      name: '" ++ interpolate (t_name t) ++ "',
      description: '" ++ interpolate (t_description t) ++ "',
      inputSchema: {
        type: 'object',
        properties: {
" ++ join ("," ++ lf1) (map_or_empty gen_param (parameters t)) ++ "
        },
        required: ["
  ++ join ", "
       (map (fun p => "'" ++ interpolate (p_name p) ++ "'")
            (filter p_required
                    (match parameters t with Some ps => ps | None => [] end)))
  ++ "]
      }
    }".

(** The text of one [case] of the dispatch. *)
Definition gen_case (t : Tool) : string :=
  "    case '" ++ interpolate (t_name t) ++ "':
      return " ++ interpolate (t_name t) ++ "Tool(client, args);".

(** The fixed text the file starts with. *)
Definition index_head : string :=
  "import { Server } from '@modelcontextprotocol/sdk/server/index.js';
import { StdioServerTransport } from '@modelcontextprotocol/sdk/server/stdio.js';
import { CallToolRequestSchema, ListToolsRequestSchema } from '@modelcontextprotocol/sdk/types.js';
import { ApiClient } from './client';
".

(** The fixed text the file ends with. *)
Definition index_tail : string :=
  "
    default:
      throw new Error(`Unknown tool: ${name}`);
  }
});

// Start server
async function main() {
  const transport = new StdioServerTransport();
  await server.connect(transport);
  console.error('MCP server running on stdio');
}

main().catch(console.error);
".

(** [genServerIndex(spec)]. *)
Definition genServerIndex (spec : Spec) : string :=
  let toolImports :=
    join lf1
      (map (fun t => "import { " ++ interpolate (t_name t)
                     ++ "Tool } from './tools/" ++ interpolate (t_name t)
                     ++ "';")
           (tools spec)) in
  let resourceImports :=
    join lf1
      (map_or_empty
         (fun r => "import { " ++ interpolate r
                   ++ "Resource } from './resources/" ++ interpolate r
                   ++ "';")
         (resource_names spec)) in
  index_head ++ toolImports ++ "
" ++ resourceImports ++ "

const server = new Server(
  { name: 'mcp-" ++ interpolate (name spec) ++ "', version: '"
  ++ interpolate (version spec) ++ "' },
  { capabilities: { tools: {}, resources: {} } }
);

// Initialize API client
const client = new ApiClient();

// List available tools
server.setRequestHandler(ListToolsRequestSchema, async () => ({
  tools: [
" ++ join ("," ++ lf1) (map gen_listing (tools spec)) ++ "
  ]
}));

// Handle tool calls
server.setRequestHandler(CallToolRequestSchema, async (request) => {
  const { name, arguments: args } = request.params;
  
  switch (name) {
" ++ join lf1 (map gen_case (tools spec)) ++ index_tail.

(** The object [genPackageJson(spec)] serializes; [JSON.stringify]
    leaves out a property whose value is [undefined]. *)
Definition genPackageJson (spec : Spec) : Checks.PackageJson :=
  {| Checks.pkg_name := Some ("mcp-" ++ interpolate (name spec));
     Checks.pkg_version := version spec;
     Checks.pkg_description := description spec;
     Checks.pkg_main := Some "dist/index.js";
     Checks.scripts :=
       Some [("build", "tsc"); ("start", "node dist/index.js");
             ("dev", "ts-node src/index.ts"); ("test", "jest")];
     Checks.dependencies :=
       Some [("@modelcontextprotocol/sdk", "^1.0.0"); ("zod", "^3.22.0")];
     Checks.devDependencies :=
       Some [("@types/node", "^20.0.0"); ("typescript", "^5.3.0");
             ("ts-node", "^10.9.0"); ("jest", "^29.0.0");
             ("@types/jest", "^29.0.0")];
     Checks.engines_node := Some ">=18.0.0" |}.

End Generator.

(* ================================================================== *)
(** ** api.js: the other endpoints                                     *)
(* ================================================================== *)

Module Endpoints.
Import Js Eff Api.
Local Open Scope eff_scope.

(** What [GET /api/jobs/:id] answers: the 404, or the id with every
    property of the record. *)
Inductive JobAnswer :=
| JobNotFound (code : nat) (error : string)
| JobFound (job_id : string) (job : Job).

(** [GET /api/jobs/:id]. *)
Definition get_job (id : string) (st : AppState) : JobAnswer :=
  match map_get id (jobs st) with
  | None => JobNotFound 404 "Job not found"
  | Some job => JobFound id job
  end.

(** [processJob] up to its first [await], the one of the parser: this
    much of it runs, from [setImmediate], before the event loop turns to
    a request that arrives later.  Nothing of the module state changes
    between the [set] of the first stage and that [await]. *)
Definition processJob_head (w : World) (jobId : string) : M AppState unit :=
  fun st =>
    match map_get jobId (jobs st) with
    | None =>
        (st, Throws "Cannot read properties of undefined (reading 'stage')")
    | Some j =>
        let (f, o) :=
          try_catch
            (throw_if (negb (truthy (ANTHROPIC_API_KEY w)))
                      "ANTHROPIC_API_KEY environment variable not set" ;;
             enter jobId "parsing" "parse")
            (on_error w jobId)
            {| globals := st; job := j; stages := [] |} in
        (globals f, o)
    end.

(** The handler of [POST /api/generate] together with the callback it
    schedules: the response of the handler, and the state once
    [processJob] has run to its first [await].  The response is sent
    before the callback runs, so what the callback does cannot change
    it. *)
Definition generate_request (w : World) (description : option string)
  : M AppState Accepted :=
  fun st =>
    match post_generate w description st with
    | (st1, Returns (Queued jobId status)) =>
        (fst (processJob_head w jobId st1), Returns (Queued jobId status))
    | answered => answered
    end.

(** The [spec] of a request body: the specification and whether
    [prompts] is truthy. *)
Record SpecBody := { body_spec : Parser.Spec; prompts : bool }.

(** The body of [spec.tools.forEach((tool, i) => ...)] of the
    endpoint, from index [i]. *)
Fixpoint body_tool_errors (i : nat) (ts : list Parser.Tool) : list string :=
  match ts with
  | [] => []
  | tool :: ts' =>
      app (if negb (truthy (Parser.tool_name tool))
           then ["Tool " ++ Parser.decimal i ++ ": missing name"] else [])
     (app (if negb (truthy (Parser.tool_description tool))
           then ["Tool " ++ Parser.decimal i ++ ": missing description"]
           else [])
          (body_tool_errors (S i) ts'))
  end.

Definition present {A} (o : option A) : bool :=
  match o with Some _ => true | None => false end.

(** [schemaErrors] of the endpoint. *)
Definition schemaErrors (s : SpecBody) : list string :=
  app (if negb (truthy (Parser.name (body_spec s)))
       then ["Missing required field: name"] else [])
 (app (if negb (present (Parser.tools (body_spec s)))
          && negb (present (Parser.resources (body_spec s)))
          && negb (prompts s)
       then ["At least one of tools, resources, or prompts required"]
       else [])
      (match Parser.tools (body_spec s) with
       | Some ts => body_tool_errors 0 ts
       | None => []
       end)).

(** What [POST /api/validate] answers. *)
Inductive ValidateAnswer :=
| Refused (code : nat) (error : string)
| Validated (result : Validator.ValidationResult).

(** [POST /api/validate]. *)
Definition post_validate (w : World) (serverDir : option string)
           (spec : option SpecBody) : ValidateAnswer :=
  match truthy serverDir, spec with
  | false, None => Refused 400 "Provide either serverDir or spec"
  | true, _ =>
      match Validator.validate (interpolate serverDir)
              (server_dir w (interpolate serverDir)) with
      | Returns result => Validated result
      | Throws message => Refused 500 message
      end
  | false, Some s =>
      let errors := schemaErrors s in
      Validated {| Validator.valid := is_empty errors;
                   Validator.errors := map Validator.EString errors;
                   Validator.warnings := [] |}
  end.

End Endpoints.

(* ================================================================== *)
(** ** More sample data                                                *)
(* ================================================================== *)

Module Cases.
Import Js Eff Api.

(** The world of [Samples.fine_world] without the API key. *)
Definition keyless_world : World :=
  {| ANTHROPIC_API_KEY := None;
     llm := llm Samples.fine_world;
     generate := generate Samples.fine_world;
     server_dir := server_dir Samples.fine_world;
     package := package Samples.fine_world;
     init_failure := None;
     generateId := generateId Samples.fine_world;
     now_iso := now_iso Samples.fine_world;
     generateJobId := generateJobId Samples.fine_world;
     now := now Samples.fine_world |}.

(** The same world with another packager. *)
Definition with_package (p : string -> string -> Outcome PkgResult)
           (w : World) : World :=
  {| ANTHROPIC_API_KEY := ANTHROPIC_API_KEY w; llm := llm w;
     generate := generate w; server_dir := server_dir w;
     package := p; init_failure := init_failure w;
     generateId := generateId w; now_iso := now_iso w;
     generateJobId := generateJobId w; now := now w |}.

(** A packager whose build fails: [package] resolves with
    [success: false] and writes no manifest. *)
Definition build_fails (serverDir runtime : string) : Outcome PkgResult :=
  Returns {| pkg_success := false; manifestPath := None |}.

(** A specification with two tools, as the templates read it. *)
Definition notes_gen : Generator.Spec :=
  {| Generator.name := Some "notes";
     Generator.version := Some "1.0.0";
     Generator.description := Some "Notes";
     Generator.tools :=
       [{| Generator.t_name := Some "add_note";
           Generator.t_description := Some "Add a note";
           Generator.parameters :=
             Some [{| Generator.p_name := Some "title";
                      Generator.p_type := Some "string";
                      Generator.p_description := None;
                      Generator.p_required := true |}] |};
        {| Generator.t_name := Some "list_notes";
           Generator.t_description := Some "List the notes";
           Generator.parameters := Some [] |}];
     Generator.resource_names := Some [] |}.

(** The [src/index.ts] the generator writes for [notes_gen], with the
    branch for [list_notes] taken out of the [switch]: the listing
    declares [add_note] and [list_notes], and only [add_note] has a
    handler. *)
Definition notes_doc : string :=
"import { Server } from '@modelcontextprotocol/sdk/server/index.js';
import { StdioServerTransport } from '@modelcontextprotocol/sdk/server/stdio.js';
import { CallToolRequestSchema, ListToolsRequestSchema } from '@modelcontextprotocol/sdk/types.js';
import { ApiClient } from './client';
import { add_noteTool } from './tools/add_note';
import { list_notesTool } from './tools/list_notes';


const server = new Server(
  { name: 'mcp-notes', version: '1.0.0' },
  { capabilities: { tools: {}, resources: {} } }
);

// Initialize API client
const client = new ApiClient();

// List available tools
server.setRequestHandler(ListToolsRequestSchema, async () => ({
  tools: [
    {
      name: 'add_note',
      description: 'Add a note',
      inputSchema: {
        type: 'object',
        properties: {
          title: { type: 'string' }
        },
        required: ['title']
      }
    },
    {
      name: 'list_notes',
      description: 'List the notes',
      inputSchema: {
        type: 'object',
        properties: {

        },
        required: []
      }
    }
  ]
}));

// Handle tool calls
server.setRequestHandler(CallToolRequestSchema, async (request) => {
  const { name, arguments: args } = request.params;
  
  switch (name) {
    case 'add_note':
      return add_noteTool(client, args);
    default:
      throw new Error(`Unknown tool: ${name}`);
  }
});

// Start server
async function main() {
  const transport = new StdioServerTransport();
  await server.connect(transport);
  console.error('MCP server running on stdio');
}

main().catch(console.error);
".

(** The branch of [list_notes] as the generator writes it. *)
Definition list_notes_case : string :=
"    case 'list_notes':
      return list_notesTool(client, args);
".

(** The weather specification as the templates read it. *)
Definition weather_gen : Generator.Spec :=
  {| Generator.name := Some "weather";
     Generator.version := Some "1.0.0";
     Generator.description := Some "Weather lookup";
     Generator.tools :=
       [{| Generator.t_name := Some "get_forecast";
           Generator.t_description := Some "Forecast for a city";
           Generator.parameters :=
             Some [{| Generator.p_name := Some "city";
                      Generator.p_type := Some "string";
                      Generator.p_description := None;
                      Generator.p_required := true |}] |}];
     Generator.resource_names := Some [] |}.

(** A directory in which nothing is installed yet. *)
Definition fresh_view : Checks.TsView :=
  {| Checks.has_tsconfig := true;
     Checks.has_node_modules := false;
     Checks.has_tsc := false;
     Checks.tsc := Checks.TscPasses |}.

(** The generated weather server before [npm install]. *)
Definition fresh_dir : Validator.ServerDir :=
  {| Validator.dir_exists := true;
     Validator.checkTypeScript := Checks.checkTypeScript fresh_view;
     Validator.checkLint :=
       {| Validator.lint_errors := []; Validator.lint_warnings := [] |};
     Validator.index_ts := Some (Generator.genServerIndex weather_gen);
     Validator.checkDependencies :=
       Checks.checkDependencies
         (Checks.Parsed (Generator.genPackageJson weather_gen)) |}.


(** A [package.json] that asks for Node 16 or later. *)
Definition old_node_pkg : Checks.PackageJson :=
  {| Checks.pkg_name := Some "mcp-weather";
     Checks.pkg_version := Some "1.0.0";
     Checks.pkg_description := None;
     Checks.pkg_main := Some "dist/index.js";
     Checks.scripts := None;
     Checks.dependencies :=
       Some [("@modelcontextprotocol/sdk", "^1.0.0"); ("zod", "^3.22.0")];
     Checks.devDependencies := Some [("typescript", "^5.3.0")];
     Checks.engines_node := Some ">=16.0.0" |}.

End Cases.

(* ================================================================== *)
(** ** The compliance check                                            *)
(* ================================================================== *)

Section Compliance.
Import Js Validator.

(** The two loops over the name sets are folds that only append. *)
Lemma fold_fatal_issues (p : string -> bool) (f : string -> string) l r :
  issues (fold_left (fun r t => if p t then fatal (f t) r else r) l r)
  = app (issues r) (map f (filter p l)).
Proof.
  revert r; induction l as [|t l IH]; intros r; simpl.
  - now rewrite app_nil_r.
  - rewrite IH. destruct (p t); simpl; [now rewrite <- app_assoc | easy].
Qed.

Lemma fold_fatal_compliant (p : string -> bool) (f : string -> string) l r :
  compliant (fold_left (fun r t => if p t then fatal (f t) r else r) l r)
  = compliant r && negb (existsb p l).
Proof.
  revert r; induction l as [|t l IH]; intros r; simpl.
  - now rewrite andb_true_r.
  - rewrite IH. destruct (p t); simpl; [now rewrite andb_false_r | easy].
Qed.

Lemma fold_note_issues {A} (p : A -> bool) (f : A -> string) l r :
  issues (fold_left (fun r t => if p t then note (f t) r else r) l r)
  = app (issues r) (map f (filter p l)).
Proof.
  revert r; induction l as [|t l IH]; intros r; simpl.
  - now rewrite app_nil_r.
  - rewrite IH. destruct (p t); simpl; [now rewrite <- app_assoc | easy].
Qed.

Lemma fold_note_compliant {A} (p : A -> bool) (f : A -> string) l r :
  compliant (fold_left (fun r t => if p t then note (f t) r else r) l r)
  = compliant r.
Proof.
  revert r; induction l as [|t l IH]; intros r; simpl; [easy|].
  rewrite IH. now destruct (p t).
Qed.

(** The shape of the issue list of an existing document. *)
Lemma checkProtocol_issues content :
  issues (checkProtocol (Some content))
  = app (if includes content "ListToolsRequestSchema" then []
         else ["Missing ListToolsRequestSchema handler"])
   (app (if includes content "CallToolRequestSchema" then []
         else ["Missing CallToolRequestSchema handler"])
   (app (map missing_handler_msg
             (filter (fun t => negb (shas (handledTools content) t))
                     (definedTools content)))
   (app (map undeclared_msg
             (filter (fun t => negb (shas (definedTools content) t)
                               && negb (String.eqb t "default"))
                     (handledTools content)))
   (app (map (fun _ => schema_msg)
             (filter schema_lacks_type (exec_all re_schema_at 0 content)))
        (if includes content "server.connect" || includes content ".run("
         then [] else ["Missing server connection/run call"]))))).
Proof.
  unfold checkProtocol.
  set (r0 := {| compliant := true; issues := [] |}).
  set (r1 := if negb (includes content "ListToolsRequestSchema")
             then fatal "Missing ListToolsRequestSchema handler" r0 else r0).
  set (r2 := if negb (includes content "CallToolRequestSchema")
             then fatal "Missing CallToolRequestSchema handler" r1 else r1).
  assert (H2 : issues r2
               = app (if includes content "ListToolsRequestSchema" then []
                      else ["Missing ListToolsRequestSchema handler"])
                     (if includes content "CallToolRequestSchema" then []
                      else ["Missing CallToolRequestSchema handler"])).
  { unfold r2, r1, r0.
    destruct (includes content "ListToolsRequestSchema");
      destruct (includes content "CallToolRequestSchema"); reflexivity. }
  match goal with
  | |- issues (if ?c then fatal ?m ?r else ?r) = _ =>
      assert (H : issues (if c then fatal m r else r)
                  = app (issues r) (if c then [m] else []))
        by (destruct c; simpl; [reflexivity | now rewrite app_nil_r]);
      rewrite H; clear H
  end.
  rewrite (fold_note_issues schema_lacks_type (fun _ => schema_msg)).
  rewrite (fold_note_issues _ undeclared_msg).
  rewrite (fold_fatal_issues _ missing_handler_msg).
  rewrite H2.
  rewrite <- !app_assoc. repeat f_equal.
  destruct (includes content "server.connect");
    destruct (includes content ".run("); reflexivity.
Qed.

(** The verdict of an existing document: only the two markers, the
    declared names without handler and the connection call decide it. *)
Lemma checkProtocol_compliant content :
  compliant (checkProtocol (Some content))
  = includes content "ListToolsRequestSchema"
    && includes content "CallToolRequestSchema"
    && negb (existsb (fun t => negb (shas (handledTools content) t))
                     (definedTools content))
    && (includes content "server.connect" || includes content ".run(").
Proof.
  unfold checkProtocol.
  match goal with
  | |- compliant (if ?c then fatal ?m ?r else ?r) = _ =>
      assert (H : compliant (if c then fatal m r else r)
                  = compliant r && negb c)
        by (destruct c; simpl; [now rewrite andb_false_r
                               | now rewrite andb_true_r]);
      rewrite H; clear H
  end.
  rewrite (fold_note_compliant schema_lacks_type (fun _ => schema_msg)).
  rewrite (fold_note_compliant _ undeclared_msg).
  rewrite (fold_fatal_compliant _ missing_handler_msg).
  destruct (includes content "ListToolsRequestSchema");
    destruct (includes content "CallToolRequestSchema");
    destruct (includes content "server.connect");
    destruct (includes content ".run("); simpl;
    rewrite ?andb_true_r, ?andb_false_r; reflexivity.
Qed.

(** A [Set] holds no name twice. *)
Lemma add_all_nodup xs s : NoDup s -> NoDup (add_all xs s).
Proof.
  revert s; induction xs as [|x xs IH]; intros s Hs; simpl; [easy|].
  apply IH. now apply set_add_nodup.
Qed.

Lemma definedTools_nodup content : NoDup (definedTools content).
Proof.
  unfold definedTools. destruct (first_match re_tools_at content).
  - apply add_all_nodup. constructor.
  - constructor.
Qed.

Lemma handledTools_nodup content : NoDup (handledTools content).
Proof.
  unfold handledTools. do 2 apply add_all_nodup. constructor.
Qed.

Lemma shas_true s x : shas s x = true <-> In x s.
Proof.
  split; [apply set_mem_correct1 | apply set_mem_correct2].
Qed.

Lemma shas_false s x : shas s x = false <-> ~ In x s.
Proof.
  split; [apply set_mem_complete1 | apply set_mem_complete2].
Qed.

(** The issue texts determine the name they carry. *)
Lemma append_inj_l (p a b : string) : p ++ a = p ++ b -> a = b.
Proof.
  induction p as [|c p IH]; simpl; intros H; [easy|].
  injection H as H. now apply IH.
Qed.

Lemma append_inj_r (c : ascii) (a b : string) :
  a ++ String c "" = b ++ String c "" -> a = b.
Proof.
  revert b; induction a as [|x a IH]; intros [|y b] H; simpl in H.
  - reflexivity.
  - injection H as _ H. now destruct b.
  - injection H as _ H. now destruct a.
  - injection H as -> H. f_equal. now apply IH.
Qed.

Lemma missing_handler_msg_inj a b :
  missing_handler_msg a = missing_handler_msg b -> a = b.
Proof.
  unfold missing_handler_msg. intros H.
  apply append_inj_l in H. now apply append_inj_r in H.
Qed.

Lemma undeclared_msg_inj a b : undeclared_msg a = undeclared_msg b -> a = b.
Proof.
  unfold undeclared_msg. intros H.
  apply append_inj_l in H. now apply append_inj_r in H.
Qed.

(** On a duplicate-free list an injective image counts like its
    argument. *)
Lemma count_occ_map_filter (f : string -> string) (p : string -> bool) l t :
  (forall a b, f a = f b -> a = b) ->
  NoDup l ->
  count_occ string_dec (map f (filter p l)) (f t)
  = if p t && shas l t then 1 else 0.
Proof.
  intros Hf Hl.
  rewrite <- (count_occ_map f string_dec string_dec Hf).
  destruct (p t) eqn:Hp; simpl.
  - destruct (shas l t) eqn:Hm.
    + apply NoDup_count_occ'; [now apply NoDup_filter|].
      apply filter_In. split; [now apply shas_true | easy].
    + apply count_occ_not_In. rewrite filter_In.
      apply shas_false in Hm. tauto.
  - apply count_occ_not_In. rewrite filter_In. intros [_ H]. congruence.
Qed.

Lemma count_occ_absent (l : list string) x :
  (forall y, In y l -> y <> x) -> count_occ string_dec l x = 0.
Proof.
  intros H. apply count_occ_not_In. intros Hin. now apply (H x).
Qed.

Ltac other_issue :=
  let y := fresh "y" in
  let Hy := fresh "Hy" in
  intros y Hy;
  repeat match goal with
         | H : In _ (if ?c then _ else _) |- _ => destruct c
         | H : In _ (map _ _) |- _ =>
             apply in_map_iff in H; destruct H as (? & <- & _)
         | H : In _ (_ :: _) |- _ => destruct H as [<- | H]
         | H : In _ [] |- _ => destruct H
         end;
  unfold missing_handler_msg, undeclared_msg, schema_msg; simpl;
  discriminate.

(** How often the issue list names a tool as lacking its handler. *)
Lemma count_missing content t :
  count_occ string_dec (issues (checkProtocol (Some content)))
            (missing_handler_msg t)
  = if negb (shas (handledTools content) t) && shas (definedTools content) t
    then 1 else 0.
Proof.
  rewrite checkProtocol_issues, !count_occ_app.
  rewrite (count_occ_map_filter missing_handler_msg _ _ t
             missing_handler_msg_inj (definedTools_nodup content)).
  rewrite (count_occ_absent (if includes content "ListToolsRequestSchema"
                             then _ else _)) by other_issue.
  rewrite (count_occ_absent (if includes content "CallToolRequestSchema"
                             then _ else _)) by other_issue.
  rewrite (count_occ_absent (map undeclared_msg _)) by other_issue.
  rewrite (count_occ_absent (map (fun _ => schema_msg) _)) by other_issue.
  rewrite (count_occ_absent (if _ || _ then _ else _)) by other_issue.
  simpl. lia.
Qed.

(** How often the issue list names a tool as handled and undeclared. *)
Lemma count_undeclared content t :
  count_occ string_dec (issues (checkProtocol (Some content)))
            (undeclared_msg t)
  = if (negb (shas (definedTools content) t)
        && negb (String.eqb t "default"))
       && shas (handledTools content) t
    then 1 else 0.
Proof.
  rewrite checkProtocol_issues, !count_occ_app.
  rewrite (count_occ_map_filter undeclared_msg _ _ t
             undeclared_msg_inj (handledTools_nodup content)).
  rewrite (count_occ_absent (if includes content "ListToolsRequestSchema"
                             then _ else _)) by other_issue.
  rewrite (count_occ_absent (if includes content "CallToolRequestSchema"
                             then _ else _)) by other_issue.
  rewrite (count_occ_absent (map missing_handler_msg _)) by other_issue.
  rewrite (count_occ_absent (map (fun _ => schema_msg) _)) by other_issue.
  rewrite (count_occ_absent (if _ || _ then _ else _)) by other_issue.
  simpl. lia.
Qed.

(** What the check does with the names it reads as declared, the
    names of [definedTools]: when one of them has no handler, the check
    is not compliant, and the issue list holds the entry
    [Missing tool handler for '<name>'] exactly once for each of them
    without handler (and for no other name). *)
Theorem missing_handlers_reported (content : string) :
  (exists t, In t (definedTools content) /\ ~ In t (handledTools content)) ->
  compliant (checkProtocol (Some content)) = false
  /\ (forall t, In t (definedTools content) ->
                ~ In t (handledTools content) ->
                count_occ string_dec (issues (checkProtocol (Some content)))
                          (missing_handler_msg t) = 1)
  /\ (forall t, ~ (In t (definedTools content)
                   /\ ~ In t (handledTools content)) ->
                count_occ string_dec (issues (checkProtocol (Some content)))
                          (missing_handler_msg t) = 0).
Proof.
  intros (t0 & Hd0 & Hh0). repeat split.
  - rewrite checkProtocol_compliant.
    assert (H : existsb (fun t => negb (shas (handledTools content) t))
                        (definedTools content) = true).
    { apply existsb_exists. exists t0. split; [easy|].
      apply negb_true_iff. now apply shas_false. }
    rewrite H. simpl. now rewrite andb_false_r.
  - intros t Hd Hh. rewrite count_missing.
    apply shas_true in Hd. apply shas_false in Hh.
    now rewrite Hd, Hh.
  - intros t Hn. rewrite count_missing.
    destruct (shas (handledTools content) t) eqn:Hh; simpl; [easy|].
    destruct (shas (definedTools content) t) eqn:Hd; [|easy].
    exfalso. apply Hn. split; [now apply shas_true | now apply shas_false].
Qed.

(** The sample document that lists [get_forecast] without handling it
    gets exactly the one issue. *)
Lemma missing_handlers_reported_witness :
  compliant (checkProtocol (Some Samples.unhandled_doc)) = false
  /\ issues (checkProtocol (Some Samples.unhandled_doc))
     = ["Missing tool handler for 'get_forecast'"]
  /\ count_occ string_dec
       (issues (checkProtocol (Some Samples.unhandled_doc)))
       (missing_handler_msg "get_forecast") = 1.
Proof.
  assert (Hd : In "get_forecast" (definedTools Samples.unhandled_doc))
    by (vm_compute; auto).
  assert (Hh : ~ In "get_forecast" (handledTools Samples.unhandled_doc))
    by (vm_compute; tauto).
  destruct (missing_handlers_reported Samples.unhandled_doc
              (ex_intro _ "get_forecast" (conj Hd Hh))) as (Hc & Hone & _).
  split; [exact Hc|]. split; [vm_compute; reflexivity|].
  exact (Hone "get_forecast" Hd Hh).
Defined.

(** C2.  A listed tool without handler that the check passes.  In the
    listing of [Cases.notes_doc] the first tool has a [required: [...]]
    array, and the capture of the listing ends at the bracket that
    closes it: [list_notes], the second tool of the listing, is not
    read as declared, so the document, which has no handler for it, is
    compliant with no issue.  The document is what the generator writes
    for [Cases.notes_gen] with the branch of [list_notes] taken out; on
    the generated document itself the check reads the handler of
    [list_notes] as one for an undeclared tool. *)
Theorem second_listed_tool_is_not_checked :
  includes Cases.notes_doc "name: 'list_notes'" = true
  /\ includes Cases.notes_doc "case 'list_notes'" = false
  /\ definedTools Cases.notes_doc = ["add_note"]
  /\ handledTools Cases.notes_doc = ["add_note"]
  /\ checkProtocol (Some Cases.notes_doc)
     = {| compliant := true; issues := [] |}
  /\ (exists before after,
        Cases.notes_doc = before ++ after
        /\ Generator.genServerIndex Cases.notes_gen
           = before ++ Cases.list_notes_case ++ after)
  /\ definedTools (Generator.genServerIndex Cases.notes_gen) = ["add_note"]
  /\ checkProtocol (Some (Generator.genServerIndex Cases.notes_gen))
     = {| compliant := true;
          issues := ["Handler for undeclared tool 'list_notes'"] |}.
Proof.
  split; [vm_compute; reflexivity|].
  split; [vm_compute; reflexivity|].
  split; [vm_compute; reflexivity|].
  split; [vm_compute; reflexivity|].
  split; [vm_compute; reflexivity|].
  split; [|split; vm_compute; reflexivity].
  exists (substring 0 1310 Cases.notes_doc),
         (substring 1310 (String.length Cases.notes_doc) Cases.notes_doc).
  split; vm_compute; reflexivity.
Qed.

(** C3.  A handled name that is not declared and is not [default] puts
    the entry [Handler for undeclared tool '<name>'] into the issue
    list, once; a handled name equal to [default] never gets that entry;
    and no such entry makes the verdict false: with both markers, every
    declared name handled and a connection call, the document is
    compliant. *)
Theorem undeclared_handlers_noted (content t : string) :
  In t (handledTools content) ->
  (~ In t (definedTools content) -> t <> "default" ->
   count_occ string_dec (issues (checkProtocol (Some content)))
             (undeclared_msg t) = 1)
  /\ (t = "default" ->
      ~ In (undeclared_msg t) (issues (checkProtocol (Some content))))
  /\ (includes content "ListToolsRequestSchema" = true ->
      includes content "CallToolRequestSchema" = true ->
      (forall d, In d (definedTools content) ->
                 In d (handledTools content)) ->
      includes content "server.connect" || includes content ".run(" = true ->
      compliant (checkProtocol (Some content)) = true).
Proof.
  intros Hh. repeat split.
  - intros Hd Hne. rewrite count_undeclared.
    apply shas_true in Hh. apply shas_false in Hd.
    apply String.eqb_neq in Hne. now rewrite Hh, Hd, Hne.
  - intros ->. rewrite (count_occ_not_In string_dec), count_undeclared.
    simpl. now rewrite andb_false_r.
  - intros Hl Hc Hall Hconn. rewrite checkProtocol_compliant, Hl, Hc, Hconn.
    simpl. rewrite andb_true_r. apply negb_true_iff.
    apply not_true_is_false. intros He.
    apply existsb_exists in He. destruct He as (d & Hin & Hnot).
    apply negb_true_iff, shas_false in Hnot. now apply Hnot, Hall.
Qed.

(** The sample document with a [legacy_tool] case and a quoted
    [default] case: one entry for the former, none for the latter, and
    the verdict stays compliant. *)
Lemma undeclared_handlers_noted_witness :
  count_occ string_dec (issues (checkProtocol (Some Samples.legacy_doc)))
            (undeclared_msg "legacy_tool") = 1
  /\ ~ In (undeclared_msg "default")
          (issues (checkProtocol (Some Samples.legacy_doc)))
  /\ compliant (checkProtocol (Some Samples.legacy_doc)) = true.
Proof.
  assert (Hh : In "legacy_tool" (handledTools Samples.legacy_doc))
    by (vm_compute; auto).
  assert (Hh' : In "default" (handledTools Samples.legacy_doc))
    by (vm_compute; auto).
  assert (Hd : ~ In "legacy_tool" (definedTools Samples.legacy_doc))
    by (vm_compute; intros [H|[]]; discriminate).
  destruct (undeclared_handlers_noted Samples.legacy_doc "legacy_tool" Hh)
    as (Hone & _ & Hcomp).
  destruct (undeclared_handlers_noted Samples.legacy_doc "default" Hh')
    as (_ & Hdef & _).
  split; [apply Hone; [exact Hd | discriminate]|].
  split; [now apply Hdef|].
  apply Hcomp; try (vm_compute; reflexivity).
  vm_compute. intros d [<-|[]]. auto.
Defined.

End Compliance.

(* ================================================================== *)
(** ** The registry                                                    *)
(* ================================================================== *)

Section RegistryFacts.
Import Js Eff Registry.

Lemma ensure_db_table w st : table (fst (ensure_db w st)) = table st.
Proof.
  unfold ensure_db, bind, Eff.get, init, throw, modify, ret.
  destruct (opened st); simpl; [easy|].
  now destruct (init_failure w).
Qed.

Lemma ensure_db_returns w st :
  (opened st = false -> init_failure w = None) ->
  ensure_db w st = ({| opened := true; table := table st |}, Returns tt).
Proof.
  intros H. unfold ensure_db, bind, Eff.get, init, throw, modify, ret.
  destruct st as [[|] t]; simpl in *; [easy|].
  now rewrite H.
Qed.

Lemma update_by_name_names n f t :
  (forall r, name (f r) = name r) ->
  map name (update_by_name n f t) = map name t.
Proof.
  intros Hf. unfold update_by_name. rewrite map_map.
  apply map_ext. intros r. now destruct (String.eqb (name r) n).
Qed.

Lemma update_by_name_ids n f t :
  (forall r, id (f r) = id r) ->
  map id (update_by_name n f t) = map id t.
Proof.
  intros Hf. unfold update_by_name. rewrite map_map.
  apply map_ext. intros r. now destruct (String.eqb (name r) n).
Qed.

Lemma rows_named_names n t t' :
  map name t = map name t' -> rows_named n t = rows_named n t'.
Proof.
  unfold rows_named. revert t'.
  induction t as [|r t IH]; intros [|r' t'] H; simpl in *; try easy.
  injection H as Hn Ht. rewrite Hn.
  destruct (String.eqb (name r') n); simpl; auto.
Qed.

Lemma rows_named_unique n t :
  NoDup (map name t) -> In n (map name t) -> rows_named n t = 1.
Proof.
  unfold rows_named. induction t as [|r t IH]; simpl; [easy|].
  intros Hnd Hin. inversion Hnd as [|? ? Hnotin Hnd']; subst.
  destruct (String.eqb (name r) n) eqn:E; simpl.
  - apply String.eqb_eq in E. subst n. f_equal.
    apply length_zero_iff_nil.
    destruct (filter _ t) as [|r' l] eqn:Hf; [easy|]. exfalso.
    assert (Hr' : In r' (filter (fun r0 => String.eqb (name r0) (name r)) t))
      by (rewrite Hf; now left).
    apply filter_In in Hr'. destruct Hr' as [Hr' Hn].
    apply String.eqb_eq in Hn. apply Hnotin. rewrite <- Hn.
    now apply in_map.
  - apply String.eqb_neq in E. destruct Hin as [Hin|Hin]; [easy|].
    now apply IH.
Qed.

Lemma rows_named_absent n t : ~ In n (map name t) -> rows_named n t = 0.
Proof.
  unfold rows_named. induction t as [|r t IH]; simpl; [easy|].
  intros Hn. destruct (String.eqb (name r) n) eqn:E.
  - apply String.eqb_eq in E. tauto.
  - apply IH. tauto.
Qed.

Lemma select_by_name_some n t r :
  select_by_name n t = Some r -> In r t /\ name r = n.
Proof.
  unfold select_by_name. intros H. apply find_some in H.
  now rewrite String.eqb_eq in H.
Qed.

Lemma select_by_name_none n t :
  select_by_name n t = None -> ~ In n (map name t).
Proof.
  unfold select_by_name. intros H Hin.
  apply in_map_iff in Hin. destruct Hin as (r & Hr & Hin).
  apply (find_none _ _ H) in Hin. apply String.eqb_neq in Hin. easy.
Qed.

Lemma existsb_name_none n t :
  select_by_name n t = None ->
  existsb (fun r => String.eqb (name r) n) t = false.
Proof.
  intros H. apply not_true_is_false. intros He.
  apply existsb_exists in He. destruct He as (r & Hin & Hn).
  unfold select_by_name in H. apply (find_none _ _ H) in Hin. congruence.
Qed.

Lemma truthy_some n : truthy (Some n) = true <-> n <> "".
Proof.
  simpl. rewrite negb_true_iff. apply String.eqb_neq.
Qed.

(** [register] keeps the names unique and non-empty. *)
Lemma register_names_ok w m st :
  names_ok (table st) -> names_ok (table (fst (register w m st))).
Proof.
  intros [Hnd Hne]. unfold register, bind.
  destruct (ensure_db w st) as [st1 [[]|e]] eqn:E1;
    pose proof (ensure_db_table w st) as Ht; rewrite E1 in Ht; simpl in Ht;
    [|simpl; rewrite Ht; now split].
  unfold throw_if.
  destruct (negb (truthy (m_name m))) eqn:Hname;
    [unfold throw; simpl; rewrite Ht; now split|].
  apply negb_false_iff in Hname.
  destruct (m_name m) as [n|]; [|discriminate].
  apply truthy_some in Hname.
  unfold ret, Eff.get. change (interpolate (Some n)) with n.
  destruct (select_by_name n (table st1)) as [existing|] eqn:Hsel.
  - unfold modify, ret. cbn [fst table]. rewrite Ht. split.
    + now rewrite update_by_name_names.
    + unfold update_by_name. apply Forall_map.
      eapply Forall_impl; [|exact Hne]. intros r Hr.
      now destruct (String.eqb (name r) n).
  - unfold insert, bind, Eff.get, modify, throw, ret. cbn [id name].
    destruct (existsb _ (table st1)); [simpl; rewrite Ht; now split|].
    rewrite (existsb_name_none _ _ Hsel). simpl. rewrite Ht. split.
    + rewrite map_app. simpl. apply NoDup_app; [easy | | ].
      * repeat constructor. easy.
      * intros x Hx [<-|[]]. rewrite Ht in Hsel.
        now apply (select_by_name_none _ _ Hsel).
    + apply Forall_app. split; [easy|]. now repeat constructor.
Qed.

Lemma delete_by_name_nodup n t :
  NoDup (map name t) -> NoDup (map name (delete_by_name n t)).
Proof.
  unfold delete_by_name. induction t as [|row t IH]; simpl; [constructor|].
  intros Hnd. inversion Hnd as [|? ? Hnotin Hnd']; subst.
  destruct (negb (String.eqb (name row) n)); simpl; [|now apply IH].
  constructor; [|now apply IH].
  intros Hin. apply Hnotin. apply in_map_iff in Hin.
  destruct Hin as (r' & Hr' & Hin). apply filter_In in Hin.
  rewrite <- Hr'. now apply in_map.
Qed.

(** Every registry state the class produces meets the constraints. *)
Lemma reachable_names_ok st : reachable st -> names_ok (table st).
Proof.
  induction 1 as [ | st _ IH | w st _ IH | w m st _ IH | w n v st _ IH
                 | w n st _ IH | st _ IH ].
  - split; constructor.
  - exact IH.
  - unfold init, throw, modify. now destruct (init_failure w).
  - now apply register_names_ok.
  - unfold get, bind, Eff.get, ret.
    destruct (ensure_db w st) as [st1 [[]|e]] eqn:E1;
      pose proof (ensure_db_table w st) as Ht; rewrite E1 in Ht;
      simpl in *; now rewrite Ht.
  - destruct IH as [Hnd Hne]. unfold remove, bind, Eff.get, ret, modify.
    destruct (ensure_db w st) as [st1 [[]|e]] eqn:E1;
      pose proof (ensure_db_table w st) as Ht; rewrite E1 in Ht;
      simpl in *; [|rewrite Ht; now split].
    destruct (select_by_name n (table st1)); simpl; rewrite Ht;
      [|now split].
    unfold delete_by_name. split.
    + now apply delete_by_name_nodup.
    + apply Forall_forall. intros x Hx. apply filter_In in Hx.
      rewrite Forall_forall in Hne. now apply Hne.
  - exact IH.
Qed.

Lemma select_by_name_update n f t existing :
  (forall r, name (f r) = name r) ->
  select_by_name n t = Some existing ->
  select_by_name n (update_by_name n f t) = Some (f existing).
Proof.
  intros Hf. unfold select_by_name, update_by_name.
  induction t as [|row t IH]; simpl; [easy|].
  destruct (String.eqb (name row) n) eqn:E.
  - rewrite Hf, E. now intros [= ->].
  - rewrite E. exact IH.
Qed.

Lemma update_by_name_others n f t r :
  In r t -> name r <> n -> In r (update_by_name n f t).
Proof.
  intros Hin Hn. unfold update_by_name. apply in_map_iff. exists r.
  apply String.eqb_neq in Hn. now rewrite Hn.
Qed.

(** C8.  In a registry state the class can reach, with a database that
    opens: registering a manifest whose name is present answers
    [updated] with the id of the row already there, rewrites that row in
    place (same ids and names in the same order, the other rows
    untouched) and leaves one row of that name; registering a name that
    is absent, with an unused generated id, appends a row and answers
    [created]. *)
Theorem register_upserts (w : World) (m : Manifest) (n : string)
        (st : State) :
  reachable st ->
  m_name m = Some n ->
  (opened st = false -> init_failure w = None) ->
  (forall existing,
      select_by_name n (table st) = Some existing ->
      exists st',
        register w m st
        = (st', Returns {| r_id := id existing; r_name := n;
                           r_version := default (m_version m) "1.0.0";
                           action := "updated" |})
        /\ rows_named n (table st') = 1
        /\ map id (table st') = map id (table st)
        /\ map name (table st') = map name (table st)
        /\ (forall r, In r (table st) -> name r <> n -> In r (table st'))
        /\ exists row,
             select_by_name n (table st') = Some row
             /\ id row = id existing
             /\ created_at row = created_at existing
             /\ version row = default (m_version m) "1.0.0"
             /\ updated_at row = now_iso w)
  /\ (select_by_name n (table st) = None ->
      n <> "" ->
      existsb (fun r => String.eqb (id r) (generateId w)) (table st)
      = false ->
      exists row,
        register w m st
        = ({| opened := true; table := app (table st) [row] |},
           Returns {| r_id := generateId w; r_name := n;
                      r_version := default (m_version m) "1.0.0";
                      action := "created" |})
        /\ name row = n
        /\ id row = generateId w
        /\ rows_named n (app (table st) [row]) = 1).
Proof.
  intros Hreach Hname Hopen.
  destruct (reachable_names_ok st Hreach) as [Hnd Hne].
  split.
  - intros existing Hsel.
    destruct (select_by_name_some _ _ _ Hsel) as [Hin Hn].
    assert (Hnz : n <> "").
    { rewrite Forall_forall in Hne. rewrite <- Hn. now apply Hne. }
    unfold register, bind. rewrite (ensure_db_returns w st Hopen).
    rewrite Hname. apply truthy_some in Hnz.
    unfold throw_if. rewrite Hnz. cbn [negb].
    unfold ret, Eff.get, modify. change (interpolate (Some n)) with n.
    cbn [table]. rewrite Hsel. cbn [opened].
    eexists. split; [reflexivity|]. cbn [table].
    split; [|split; [|split; [|split]]].
    + rewrite (rows_named_names n _ (table st))
        by (now apply update_by_name_names).
      apply rows_named_unique; [easy|]. rewrite <- Hn. now apply in_map.
    + now apply update_by_name_ids.
    + now apply update_by_name_names.
    + intros r. apply update_by_name_others.
    + eexists. split; [apply select_by_name_update; [|exact Hsel]|];
        cbn; auto.
  - intros Hsel Hnz Hid.
    unfold register, bind. rewrite (ensure_db_returns w st Hopen).
    rewrite Hname. apply truthy_some in Hnz.
    unfold throw_if. rewrite Hnz. cbn [negb].
    unfold ret, Eff.get. change (interpolate (Some n)) with n.
    cbn [table]. rewrite Hsel.
    unfold insert, bind, Eff.get, modify, throw, ret. cbn [id name table].
    rewrite Hid, (existsb_name_none _ _ Hsel). cbn [opened table].
    eexists. split; [reflexivity|]. cbn [name id].
    split; [reflexivity|]. split; [reflexivity|].
    unfold rows_named. rewrite filter_app, length_app. cbn [filter name].
    rewrite String.eqb_refl.
    pose proof (rows_named_absent n (table st)
                  (select_by_name_none _ _ Hsel)) as H0.
    unfold rows_named in H0. rewrite H0. reflexivity.
Qed.

Lemma weather_registered_reachable : reachable Samples.weather_registered.
Proof. apply reach_register, reach_new. Qed.

(** A second registration of [weather] updates the one row and answers
    with its id; a registration of [news] under a new id appends a
    row. *)
Lemma register_upserts_witness :
  (exists st',
      register (Samples.with_id "mcp_2_def456" Samples.fine_world)
               (Samples.manifest_named "weather" "2.0.0")
               Samples.weather_registered
      = (st', Returns {| r_id := "mcp_1_abc123"; r_name := "weather";
                         r_version := "2.0.0"; action := "updated" |})
      /\ rows_named "weather" (table st') = 1
      /\ List.length (table st') = 1)
  /\ (exists row,
        register (Samples.with_id "mcp_2_def456" Samples.fine_world)
                 (Samples.manifest_named "news" "1.0.0")
                 Samples.weather_registered
        = ({| opened := true;
              table := app (table Samples.weather_registered) [row] |},
           Returns {| r_id := "mcp_2_def456"; r_name := "news";
                      r_version := "1.0.0"; action := "created" |})
        /\ name row = "news").
Proof.
  split.
  - destruct (register_upserts
                (Samples.with_id "mcp_2_def456" Samples.fine_world)
                (Samples.manifest_named "weather" "2.0.0") "weather"
                Samples.weather_registered weather_registered_reachable
                eq_refl (fun _ => eq_refl)) as [Hupd _].
    destruct (select_by_name "weather" (table Samples.weather_registered))
      as [existing|] eqn:E; [|vm_compute in E; discriminate].
    destruct (Hupd existing eq_refl) as (st' & Hrun & Hone & Hids & _).
    exists st'. split; [|split; [exact Hone|]].
    + rewrite Hrun. vm_compute in E. injection E as <-. reflexivity.
    + rewrite <- (length_map id), Hids. reflexivity.
  - destruct (register_upserts
                (Samples.with_id "mcp_2_def456" Samples.fine_world)
                (Samples.manifest_named "news" "1.0.0") "news"
                Samples.weather_registered weather_registered_reachable
                eq_refl (fun _ => eq_refl)) as [_ Hnew].
    destruct (Hnew eq_refl ltac:(discriminate) eq_refl)
      as (row & Hrun & Hname & _).
    exists row. split; [exact Hrun | exact Hname].
Defined.

End RegistryFacts.

(* ================================================================== *)
(** ** Invariants of effectful code                                    *)
(* ================================================================== *)

Section Preservation.
Import Eff.
Context {S : Type} (I : S -> Prop).

Lemma preserves_ret {A} (a : A) : preserves I (ret a).
Proof. intros s Hs. exact Hs. Qed.

Lemma preserves_throw {A} message : preserves I (@throw S A message).
Proof. intros s Hs. exact Hs. Qed.

Lemma preserves_await {A} (o : Outcome A) : preserves I (await o).
Proof. intros s Hs. exact Hs. Qed.

Lemma preserves_get : preserves I (@get S).
Proof. intros s Hs. exact Hs. Qed.

Lemma preserves_throw_if c message : preserves I (@throw_if S c message).
Proof. intros s Hs. now destruct c. Qed.

Lemma preserves_modify (f : S -> S) :
  (forall s, I s -> I (f s)) -> preserves I (modify f).
Proof. intros Hf s Hs. now apply Hf. Qed.

Lemma preserves_bind {A B} (m : M S A) (k : A -> M S B) :
  preserves I m -> (forall a, preserves I (k a)) -> preserves I (bind m k).
Proof.
  intros Hm Hk s Hs. unfold bind. specialize (Hm s Hs).
  destruct (m s) as [s' [a|e]]; simpl in *; [now apply Hk | easy].
Qed.

Lemma preserves_try_catch {A} (m : M S A) (h : string -> M S A) :
  preserves I m -> (forall e, preserves I (h e)) ->
  preserves I (try_catch m h).
Proof.
  intros Hm Hh s Hs. unfold try_catch. specialize (Hm s Hs).
  destruct (m s) as [s' [a|e]]; simpl in *; [easy | now apply Hh].
Qed.

Lemma preserves_zoom {T A} (J : T -> Prop) (proj : S -> T)
      (upd : T -> S -> S) (m : M T A) :
  (forall s, I s -> J (proj s)) ->
  (forall t s, I s -> J t -> I (upd t s)) ->
  preserves J m -> preserves I (zoom proj upd m).
Proof.
  intros Hp Hu Hm s Hs. unfold zoom. specialize (Hm (proj s) (Hp s Hs)).
  destruct (m (proj s)) as [t' o]; simpl in *. now apply Hu.
Qed.

End Preservation.

(* ================================================================== *)
(** ** The job map                                                     *)
(* ================================================================== *)

Section JobMap.
Import Api.
Context {V : Type}.

Lemma map_get_set k (v : V) m : map_get k (map_set k v m) = Some v.
Proof.
  induction m as [|[k' v'] m IH]; simpl.
  - now rewrite String.eqb_refl.
  - destruct (String.eqb k' k) eqn:E; simpl.
    + now rewrite String.eqb_refl.
    + now rewrite E.
Qed.

Lemma map_get_in k (v : V) m : map_get k m = Some v -> In (k, v) m.
Proof.
  induction m as [|[k' v'] m IH]; simpl; [easy|].
  destruct (String.eqb k' k) eqn:E.
  - apply String.eqb_eq in E. intros [= ->]. left. now subst.
  - intros H. right. now apply IH.
Qed.

Lemma in_map_set k (v : V) m e :
  In e (map_set k v m) -> e = (k, v) \/ In e m.
Proof.
  induction m as [|[k' v'] m IH]; simpl.
  - intros [<-|[]]. now left.
  - destruct (String.eqb k' k); simpl.
    + intros [<-|H]; [now left | right; now right].
    + intros [<-|H]; [right; now left |].
      destruct (IH H) as [->|H']; [now left | right; now right].
Qed.

(** Storing under a key the map holds keeps every key at its place;
    a new key goes last. *)
Lemma map_set_keys k (v : V) m :
  map fst (map_set k v m)
  = if existsb (String.eqb k) (map fst m) then map fst m
    else app (map fst m) [k].
Proof.
  induction m as [|[k' v'] m IH]; simpl; [easy|].
  rewrite (String.eqb_sym k k').
  destruct (String.eqb k' k) eqn:E; simpl.
  - apply String.eqb_eq in E. now subst.
  - rewrite IH. now destruct (existsb (String.eqb k) (map fst m)).
Qed.

End JobMap.

(* ================================================================== *)
(** ** Job records                                                     *)
(* ================================================================== *)

Section JobRecords.
Import Js Eff Api.

Lemma exclusive_with_stage s j : exclusive j -> exclusive (with_stage s j).
Proof. intros H. exact H. Qed.

Lemma exclusive_failed w j message ss :
  exclusive (failed_record w j message ss).
Proof.
  split; simpl; [discriminate|]. intros _.
  repeat split; [now exists message, [] | discriminate].
Qed.

Lemma exclusive_complete w j r : exclusive (complete_record w j r).
Proof.
  split; simpl; [|discriminate]. intros _. repeat split; discriminate.
Qed.

Lemma records_jobs_set id j st :
  records_exclusive st -> exclusive j ->
  records_exclusive (jobs_set id j st).
Proof.
  intros [Hj Ht] He. split; simpl.
  - intros id' j' Hin. apply in_map_set in Hin.
    destruct Hin as [[= -> ->]|Hin]; [easy | now apply (Hj id')].
  - intros id' j' Hin. apply in_app_or in Hin.
    destruct Hin as [Hin|[[= -> ->]|[]]]; [now apply (Ht id') | easy].
Qed.

Lemma records_log_called c st :
  records_exclusive st -> records_exclusive (log (Called c) st).
Proof.
  intros [Hj Ht]. split; simpl; [exact Hj|].
  intros id' j' Hin. apply in_app_or in Hin.
  destruct Hin as [Hin|[[=]|[]]]. now apply (Ht id').
Qed.

(** Code that only touches the registry and its flag keeps any property
    of the jobs and the trace. *)
Lemma ensureRegistry_keeps (P : AppState -> Prop) w :
  (forall r b st, P st ->
     P {| jobs := jobs st; registry := r; registryInitialized := b;
          trace := trace st |}) ->
  preserves P (ensureRegistry w).
Proof.
  intros HP st Hst. unfold ensureRegistry, bind, get, zoom, modify, ret.
  destruct (registryInitialized st) eqn:E; simpl; [easy|].
  destruct (Registry.init w (registry st)) as [r [[]|e]]; simpl;
    now apply HP.
Qed.

Lemma registry_zoom_keeps (P : AppState -> Prop) {A}
      (m : M Registry.State A) :
  (forall r b st, P st ->
     P {| jobs := jobs st; registry := r; registryInitialized := b;
          trace := trace st |}) ->
  preserves P (zoom registry with_registry m).
Proof.
  intros HP st Hst. unfold zoom.
  destruct (m (registry st)) as [r o]; simpl. now apply HP.
Qed.

Lemma records_registry_blind r b st :
  records_exclusive st ->
  records_exclusive {| jobs := jobs st; registry := r;
                       registryInitialized := b; trace := trace st |}.
Proof. intros H. exact H. Qed.

Local Abbreviation frame_exclusive :=
  (fun f : Frame => records_exclusive (globals f) /\ exclusive (job f)).

Lemma enter_exclusive jobId s n :
  preserves frame_exclusive (enter jobId s n).
Proof.
  apply preserves_modify. intros f [Hr Hj]. simpl. split; [|exact Hj].
  now apply records_jobs_set.
Qed.

Lemma call_exclusive {A} c (o : Outcome A) :
  preserves frame_exclusive (call c o).
Proof.
  apply preserves_bind; [|intros; apply preserves_await].
  apply preserves_modify. intros f [Hr Hj]. simpl. split; [|exact Hj].
  now apply records_log_called.
Qed.

Lemma globals_zoom_exclusive {A} (m : M AppState A) :
  preserves records_exclusive m ->
  preserves frame_exclusive (zoom globals with_app m).
Proof.
  intros Hm. apply (preserves_zoom _ records_exclusive); [tauto| |exact Hm].
  intros t f [_ Hj] Ht. now split.
Qed.

(** A property of the frame that the writes of the pipeline keep is
    kept by the pipeline. *)
Lemma pipeline_keeps (F : Frame -> Prop) w parsed jobId runtime :
  (forall s n, preserves F (enter jobId s n)) ->
  (forall c f, F f -> F (with_app (log (Called c) (globals f)) f)) ->
  preserves F (zoom globals with_app (ensureRegistry w)) ->
  (forall m, preserves F (zoom globals with_app
                            (zoom registry with_registry
                               (Registry.register w m)))) ->
  (forall r f, F f ->
     F (with_app (jobs_set jobId (complete_record w (job f) (r f))
                           (globals f)) f)) ->
  preserves F (pipeline w parsed jobId runtime).
Proof.
  intros Henter Hlog Hensure Hreg Hdone.
  assert (Hcall : forall A c (o : Outcome A), preserves F (call c o)).
  { intros A c o. apply preserves_bind; [|intros; apply preserves_await].
    apply preserves_modify. apply Hlog. }
  unfold pipeline.
  apply preserves_bind; [apply preserves_throw_if | intros _].
  apply preserves_bind; [apply Henter | intros _].
  apply preserves_bind; [apply Hcall | intros spec].
  apply preserves_bind; [apply preserves_throw_if | intros _].
  apply preserves_bind; [apply Henter | intros _].
  apply preserves_bind; [apply Hcall | intros genResult].
  apply preserves_bind; [apply Henter | intros _].
  apply preserves_bind; [apply Hcall | intros validation].
  apply preserves_bind;
    [destruct (negb (Validator.valid validation));
       [apply preserves_throw_if | apply preserves_ret] | intros _].
  apply preserves_bind; [apply Henter | intros _].
  apply preserves_bind; [apply Hcall | intros pkgResult].
  apply preserves_bind; [apply Henter | intros _].
  apply preserves_bind; [apply Hensure | intros _].
  apply preserves_bind.
  - apply preserves_bind; [|intros _; apply Hreg].
    apply preserves_modify. apply Hlog.
  - intros manifest. apply preserves_modify.
    apply (Hdone (fun f => _)).
Qed.

(** Every record the pipeline stores is exclusive. *)
Lemma pipeline_exclusive w parsed jobId runtime :
  preserves frame_exclusive (pipeline w parsed jobId runtime).
Proof.
  apply pipeline_keeps.
  - intros s n. apply enter_exclusive.
  - intros c f [Hr Hj]. simpl. split; [|exact Hj].
    now apply records_log_called.
  - apply globals_zoom_exclusive, ensureRegistry_keeps,
      records_registry_blind.
  - intros m. apply globals_zoom_exclusive, registry_zoom_keeps,
      records_registry_blind.
  - intros r f [Hr Hj]. simpl. split; [|exact Hj].
    apply records_jobs_set; [exact Hr|]. apply exclusive_complete.
Qed.

Lemma processJob_with_exclusive parsed w jobId runtime :
  preserves records_exclusive (processJob_with parsed w jobId runtime).
Proof.
  intros st Hst. unfold processJob_with.
  destruct (map_get jobId (jobs st)) as [j|] eqn:Hget; [|exact Hst].
  assert (H0 : frame_exclusive {| globals := st; job := j; stages := [] |}).
  { split; [exact Hst|]. destruct Hst as [Hj _].
    apply (Hj jobId). now apply map_get_in. }
  assert (Hp : preserves frame_exclusive
                 (try_catch
                    (pipeline w parsed jobId (Registry.default runtime "node"))
                    (on_error w jobId))).
  { apply preserves_try_catch; [apply pipeline_exclusive|].
    intros e. apply preserves_modify. intros f [Hr Hj]. simpl.
    split; [|exact Hj]. apply records_jobs_set; [exact Hr|].
    apply exclusive_failed. }
  specialize (Hp _ H0).
  destruct (try_catch _ _ _) as [f o]. simpl in *. tauto.
Qed.

End JobRecords.

(* ================================================================== *)
(** ** The listening server                                            *)
(* ================================================================== *)

Section Serving.
Import Js Eff Api.

Lemma registry_call_keeps (P : AppState -> Prop) w method name :
  (forall r b st, P st ->
     P {| jobs := jobs st; registry := r; registryInitialized := b;
          trace := trace st |}) ->
  preserves P (registry_call w method name).
Proof.
  intros HP. unfold registry_call.
  destruct (negb _); [apply preserves_throw|].
  assert (Ha : forall A inj (m : M Registry.State A),
             preserves P (async inj m)).
  { intros A inj m st Hst. unfold async.
    destruct (m (registry st)) as [r o]. simpl.
    apply (HP r (registryInitialized st) st Hst). }
  destruct (String.eqb method "get"); [apply Ha|].
  destruct (String.eqb method "remove"); [apply Ha|].
  apply preserves_ret.
Qed.

Lemma get_server_keeps (P : AppState -> Prop) w name :
  (forall r b st, P st ->
     P {| jobs := jobs st; registry := r; registryInitialized := b;
          trace := trace st |}) ->
  preserves P (get_server w name).
Proof.
  intros HP. unfold get_server.
  apply preserves_try_catch; [|intros; apply preserves_ret].
  apply preserves_bind; [now apply ensureRegistry_keeps | intros _].
  apply preserves_bind; [now apply registry_call_keeps | intros v].
  destruct (negb (js_truthy v)); apply preserves_ret.
Qed.

Lemma delete_server_keeps (P : AppState -> Prop) w name :
  (forall r b st, P st ->
     P {| jobs := jobs st; registry := r; registryInitialized := b;
          trace := trace st |}) ->
  preserves P (delete_server w name).
Proof.
  intros HP. unfold delete_server.
  apply preserves_try_catch; [|intros; apply preserves_ret].
  apply preserves_bind; [now apply ensureRegistry_keeps | intros _].
  apply preserves_bind; [now apply registry_call_keeps | intros v].
  destruct (negb (js_truthy v)); apply preserves_ret.
Qed.

Lemma post_generate_exclusive w description :
  preserves records_exclusive (post_generate w description).
Proof.
  unfold post_generate. destruct (negb (truthy description));
    [apply preserves_ret|].
  apply preserves_bind; [|intros; apply preserves_ret].
  apply preserves_modify. intros st Hst. apply records_jobs_set; [easy|].
  split; simpl; discriminate.
Qed.

Lemma startup_state w t st :
  startup w t = Some st ->
  jobs st = [] /\ trace st = [] /\ registryInitialized st = true.
Proof.
  unfold startup, ensureRegistry, bind, get, zoom, modify, ret. simpl.
  unfold Registry.init, throw, modify.
  destruct (init_failure w); simpl; [discriminate|].
  now intros [= <-].
Qed.

(** C4.  Every record a listening server holds or has ever stored,
    once its status is [complete] or [failed], carries exactly one of
    [result] and [errors] and exactly one of [completed_at] and
    [failed_at]: a complete record has a result and a completion time and
    neither errors nor a failure time, a failed record has a non-empty
    error list and a failure time and neither result nor completion
    time. *)
Theorem terminal_records_exclusive (st : AppState) (id : string) (j : Job) :
  serving st ->
  In (id, j) (jobs st) \/ In (Stored id j) (trace st) ->
  (status j = "complete" ->
   result j <> None /\ completed_at j <> None
   /\ errors j = None /\ failed_at j = None)
  /\ (status j = "failed" ->
      (exists e es, errors j = Some (e :: es)) /\ failed_at j <> None
      /\ result j = None /\ completed_at j = None).
Proof.
  intros Hs Hin. change (exclusive j).
  assert (Hall : records_exclusive st).
  { clear Hin. induction Hs as [w t st Hst | w d st _ IH
                               | w jobId d r st _ IH
                               | w n st _ IH | w n st _ IH].
    - destruct (startup_state _ _ _ Hst) as (Hj & Ht & _).
      split; intros id' j'; [rewrite Hj | rewrite Ht]; intros [].
    - now apply post_generate_exclusive.
    - now apply processJob_with_exclusive.
    - apply get_server_keeps; [|exact IH]. intros; assumption.
    - apply delete_server_keeps; [|exact IH]. intros; assumption. }
  destruct Hall as [Hj Ht].
  destruct Hin as [Hin|Hin]; [now apply (Hj id) | now apply (Ht id)].
Qed.

Lemma finished_serving : serving Samples.finished.
Proof.
  apply serving_process, serving_generate.
  apply (serving_startup Samples.fine_world []). reflexivity.
Qed.

(** The job of the sample run ends complete, with a result and a
    completion time only. *)
Lemma terminal_records_exclusive_witness :
  exists j,
    map_get "job_1_0a0b0c0d" (jobs Samples.finished) = Some j
    /\ status j = "complete"
    /\ result j <> None /\ completed_at j <> None
    /\ errors j = None /\ failed_at j = None.
Proof.
  destruct (map_get "job_1_0a0b0c0d" (jobs Samples.finished)) as [j|] eqn:E;
    [|vm_compute in E; discriminate].
  exists j. split; [reflexivity|].
  assert (Hst : status j = "complete").
  { vm_compute in E. injection E as <-. reflexivity. }
  split; [exact Hst|].
  apply (terminal_records_exclusive Samples.finished "job_1_0a0b0c0d" j
           finished_serving (or_introl (map_get_in _ _ _ E))).
  exact Hst.
Defined.

Local Abbreviation initialized :=
  (fun st : AppState => registryInitialized st = true).

Lemma ensureRegistry_initialized w st :
  registryInitialized st = true -> ensureRegistry w st = (st, Returns tt).
Proof.
  intros H. unfold ensureRegistry, bind, get, ret. now rewrite H.
Qed.

Lemma processJob_with_initialized parsed w jobId runtime :
  preserves initialized (processJob_with parsed w jobId runtime).
Proof.
  intros st Hst. unfold processJob_with.
  destruct (map_get jobId (jobs st)) as [j|]; [|exact Hst].
  assert (Hp : preserves (fun f => initialized (globals f))
                 (try_catch
                    (pipeline w parsed jobId (Registry.default runtime "node"))
                    (on_error w jobId))).
  { apply preserves_try_catch.
    - apply pipeline_keeps.
      + intros s n. apply preserves_modify. intros f Hf. exact Hf.
      + intros c f Hf. exact Hf.
      + intros f Hf. unfold zoom.
        rewrite (ensureRegistry_initialized w _ Hf). exact Hf.
      + intros m f Hf. unfold zoom.
        destruct (Registry.register w m (registry (globals f))). exact Hf.
      + intros r f Hf. exact Hf.
    - intros e. apply preserves_modify. intros f Hf. exact Hf. }
  specialize (Hp {| globals := st; job := j; stages := [] |} Hst).
  destruct (try_catch _ _ _) as [f o]. exact Hp.
Qed.

(** A listening server has initialised its registry. *)
Lemma serving_initialized st : serving st -> registryInitialized st = true.
Proof.
  induction 1 as [w t st Hst | w d st _ IH | w jobId d r st _ IH
                 | w n st _ IH | w n st _ IH].
  - now destruct (startup_state _ _ _ Hst) as (_ & _ & H).
  - unfold post_generate. destruct (negb (truthy d)); exact IH.
  - now apply processJob_with_initialized.
  - unfold get_server, try_catch, bind.
    rewrite (ensureRegistry_initialized w st IH).
    destruct (registry_call w "get" n st) as [st' [v|e]] eqn:E;
      unfold registry_call in E; simpl in E; unfold async in E;
      destruct (Registry.get w n None (registry st)) as [r o];
      injection E as <- _; [destruct (negb (js_truthy v))|]; exact IH.
  - unfold delete_server, try_catch, bind.
    rewrite (ensureRegistry_initialized w st IH). exact IH.
Qed.

(** C10.  On a listening server a request for the details of any name,
    registered or not, is answered with status 200 and the empty object
    a promise serializes to, and the table is left as it was; and in no
    state at all is the answer the 404 or the stored row. *)
Theorem get_server_never_not_found (st : AppState) (w : World)
        (name : string) :
  serving st ->
  (exists st',
      get_server w name st
      = (st', Returns {| code := 200; body := BJson JEmptyObject |})
      /\ Registry.table (registry st') = Registry.table (registry st))
  /\ (forall st0 w0 name0 st' r,
        get_server w0 name0 st0 = (st', Returns r) ->
        code r <> 404 /\ forall row, body r <> BJson (JRow row)).
Proof.
  intros Hs. split.
  - unfold get_server, try_catch, bind.
    rewrite (ensureRegistry_initialized w st (serving_initialized st Hs)).
    unfold registry_call. simpl. unfold async.
    pose proof (ensure_db_table w (registry st)) as Ht.
    unfold Registry.get, bind, Eff.get, ret.
    destruct (Registry.ensure_db w (registry st)) as [r1 [[]|e]];
      simpl in *; eexists; (split; [reflexivity | exact Ht]).
  - clear. intros st0 w0 name0 st' r. unfold get_server, try_catch, bind.
    destruct (ensureRegistry w0 st0) as [st1 [[]|e]].
    + unfold registry_call. simpl. unfold async.
      destruct (Registry.get w0 name0 None (registry st1)) as [r1 o].
      simpl. intros [= _ <-]. simpl. split; [discriminate|].
      intros row. discriminate.
    + unfold ret. intros [= _ <-]. simpl. split; [discriminate|].
      intros row. discriminate.
Qed.

Lemma with_weather_serving : serving Samples.with_weather.
Proof.
  apply (serving_startup Samples.fine_world [Samples.weather_row]).
  reflexivity.
Qed.

(** A name the registry holds and one it does not get the same
    answer. *)
Lemma get_server_never_not_found_witness :
  snd (get_server Samples.fine_world "weather" Samples.with_weather)
  = Returns {| code := 200; body := BJson JEmptyObject |}
  /\ snd (get_server Samples.fine_world "absent" Samples.with_weather)
     = Returns {| code := 200; body := BJson JEmptyObject |}.
Proof.
  destruct (get_server_never_not_found Samples.with_weather
              Samples.fine_world "weather" with_weather_serving)
    as [(st1 & E1 & _) _].
  destruct (get_server_never_not_found Samples.with_weather
              Samples.fine_world "absent" with_weather_serving)
    as [(st2 & E2 & _) _].
  rewrite E1, E2. split; reflexivity.
Defined.

(** The delete handler never reaches a branch of its own: it answers
    500 in every state and leaves jobs and table alone. *)
Lemma delete_server_always_fails (st : AppState) (w : World)
      (name : string) :
  exists st' message,
    delete_server w name st
    = (st', Returns {| code := 500; body := BError message |})
    /\ Registry.table (registry st') = Registry.table (registry st)
    /\ (registryInitialized st = true ->
        st' = st /\ message = "registry.unregister is not a function").
Proof.
  unfold delete_server, try_catch, bind.
  destruct (registryInitialized st) eqn:Hi.
  - rewrite (ensureRegistry_initialized w st Hi).
    exists st, "registry.unregister is not a function". now repeat split.
  - unfold ensureRegistry, bind, get, zoom, modify, ret. rewrite Hi. simpl.
    unfold Registry.init, throw, modify.
    destruct (init_failure w) as [m|]; simpl.
    + exists (with_registry (registry st) st), m. now repeat split.
    + eexists _, "registry.unregister is not a function".
      split; [reflexivity|]. split; [reflexivity | discriminate].
Qed.

(** C9.  Deleting [weather] from a registry that holds it: the handler
    answers 500 with the message of the [TypeError], and the row
    stays. *)
Theorem delete_registered_server_fails :
  delete_server Samples.fine_world "weather" Samples.with_weather
  = (Samples.with_weather,
     Returns {| code := 500;
                body := BError "registry.unregister is not a function" |})
  /\ fst (Registry.remove Samples.fine_world "weather"
            (registry Samples.with_weather))
     = {| Registry.opened := true; Registry.table := [] |}.
Proof.
  split; reflexivity.
Qed.

End Serving.

(* ================================================================== *)
(** ** Listing the jobs                                                *)
(* ================================================================== *)

Section Listing.
Import Js Eff Api.

(** A missing, unparsable or zero limit stands for 50. *)
Lemma get_jobs_default st :
  get_jobs None st = get_jobs (Some 50%Z) st
  /\ get_jobs (Some 0%Z) st = get_jobs (Some 50%Z) st.
Proof. split; reflexivity. Qed.

(** A job that is processed keeps its place in the map. *)
Lemma processJob_with_keeps_order parsed w jobId runtime st :
  map fst (jobs (fst (processJob_with parsed w jobId runtime st)))
  = map fst (jobs st).
Proof.
  unfold processJob_with.
  destruct (map_get jobId (jobs st)) as [j|] eqn:Hget; [|reflexivity].
  assert (Hk : existsb (String.eqb jobId) (map fst (jobs st)) = true).
  { apply existsb_exists. exists jobId. split; [|apply String.eqb_refl].
    apply (in_map fst _ _ (map_get_in _ _ _ Hget)). }
  assert (Hset : forall r a,
             map fst (jobs a) = map fst (jobs st) ->
             map fst (jobs (jobs_set jobId r a)) = map fst (jobs st)).
  { intros r a Ha. simpl. rewrite map_set_keys, Ha, Hk. reflexivity. }
  assert (Hp : preserves
                 (fun f => map fst (jobs (globals f)) = map fst (jobs st))
                 (try_catch
                    (pipeline w parsed jobId (Registry.default runtime "node"))
                    (on_error w jobId))).
  { apply preserves_try_catch.
    - apply pipeline_keeps.
      + intros s n. apply preserves_modify. intros f Hf. now apply Hset.
      + intros c f Hf. exact Hf.
      + apply (preserves_zoom _ (fun a => map fst (jobs a)
                                          = map fst (jobs st)));
          [easy | easy |].
        apply ensureRegistry_keeps. easy.
      + intros m.
        apply (preserves_zoom _ (fun a => map fst (jobs a)
                                          = map fst (jobs st)));
          [easy | easy |].
        apply registry_zoom_keeps. easy.
      + intros r f Hf. now apply Hset.
    - intros e. apply preserves_modify. intros f Hf. now apply Hset. }
  specialize (Hp {| globals := st; job := j; stages := [] |} eq_refl).
  destruct (try_catch _ _ _) as [f o]. exact Hp.
Qed.

(** A submission under a new id goes last. *)
Lemma post_generate_appends w description st :
  truthy description = true ->
  existsb (String.eqb (generateJobId w)) (map fst (jobs st)) = false ->
  map fst (jobs (fst (post_generate w description st)))
  = app (map fst (jobs st)) [generateJobId w].
Proof.
  intros Hd Hnew. unfold post_generate. rewrite Hd. simpl.
  now rewrite map_set_keys, Hnew.
Qed.

(** C7 (as the code has it).  For a positive limit [n] the listing is
    the tail of the map: the last [min n size] entries, in the order in
    which they were inserted, the most recent one last. *)
Theorem get_jobs_tail (st : AppState) (n : Z) :
  (0 < n)%Z ->
  exists older recent,
    jobs st = app older recent
    /\ get_jobs (Some n) st = map summary recent
    /\ List.length recent = Nat.min (Z.to_nat n) (List.length (jobs st))
    /\ (List.length (get_jobs (Some n) st) <= Z.to_nat n)%nat.
Proof.
  intros Hn. unfold get_jobs, limit_of, slice.
  destruct (Z.eqb_spec n 0) as [->|_]; [lia|].
  destruct (Z.ltb_spec (- n) 0) as [_|H]; [|lia].
  set (k := Z.to_nat (Z.max (Z.of_nat (List.length (jobs st)) + - n) 0)).
  exists (firstn k (jobs st)), (skipn k (jobs st)).
  split; [now rewrite firstn_skipn|]. split; [reflexivity|].
  rewrite length_map, length_skipn. unfold k. lia.
Qed.

(** With three jobs and limit 2 the two newest come back, oldest of the
    two first. *)
Lemma get_jobs_tail_witness :
  exists older recent,
    jobs Samples.three_jobs = app older recent
    /\ get_jobs (Some 2%Z) Samples.three_jobs = map summary recent
    /\ map fst recent = ["job_2"; "job_3"].
Proof.
  destruct (get_jobs_tail Samples.three_jobs 2 ltac:(lia))
    as (older & recent & Hsplit & Hget & Hlen & _).
  exists older, recent. split; [exact Hsplit|]. split; [exact Hget|].
  assert (H : map job_id (map summary recent) = ["job_2"; "job_3"])
    by (rewrite <- Hget; reflexivity).
  rewrite map_map in H. exact H.
Defined.

(** C7 fails as stated: the listing of three jobs with limit 2 starts
    with the older of the two, and a limit of 0 returns all three. *)
Lemma get_jobs_not_newest_first :
  map job_id (get_jobs (Some 2%Z) Samples.three_jobs) = ["job_2"; "job_3"]
  /\ map s_created_at (get_jobs (Some 2%Z) Samples.three_jobs)
     = [2%Z; 3%Z]
  /\ newest_first (get_jobs (Some 2%Z) Samples.three_jobs) = false
  /\ List.length (get_jobs (Some 0%Z) Samples.three_jobs) = 3.
Proof. repeat split. Qed.

End Listing.

(* ================================================================== *)
(** ** Runs of the pipeline                                            *)
(* ================================================================== *)

Section Runs.
Import Js Eff Api.

Ltac run :=
  cbv beta iota zeta delta
      [pipeline bind throw_if throw ret modify enter call await try_catch
       on_error zoom with_app fst snd globals job stages negb].

Ltac start Hkey Hget :=
  unfold processJob_with; rewrite Hget;
  unfold try_catch, pipeline; unfold bind at 1; unfold throw_if at 1;
  rewrite Hkey; run.

(** The parser of [parser.js] never resolves to a specification without
    a name: it rejects the reply first. *)
Lemma parse_returns_named reply runtime spec :
  Parser.parse reply runtime true = Returns spec ->
  truthy (Parser.name spec) = true.
Proof.
  destruct reply as [m|m|m|raw]; simpl; try discriminate.
  unfold Parser.validate. simpl.
  destruct (truthy (Parser.name raw)) eqn:E; simpl; [|discriminate].
  destruct (is_empty _); simpl; [|discriminate].
  now intros [= <-].
Qed.

Lemma parse_rejects_nameless raw runtime :
  truthy (Parser.name raw) = false ->
  exists rest,
    Parser.parse (Parser.Object raw) runtime true
    = Throws ("Spec validation failed: Missing required field: name"
              ++ rest).
Proof.
  intros E. simpl. unfold Parser.validate. simpl. rewrite E. simpl.
  destruct (app _ _) as [|e es].
  - now exists "".
  - exists (", " ++ join ", " (e :: es)). reflexivity.
Qed.

(** C5 (as the code has it).  When the parse stage of a job fails, the
    parser rejecting with [message] or resolving to an object without a
    name (then [message] is the text of the guard, which mentions
    [valid spec]), the job ends failed at stage [parsing] with the
    failure time stamped, [message] as its one error, no result and no
    completion time; no collaborator but the parser is called and the
    registry is untouched. *)
Theorem parse_failure_fails_job (w : World) (parsed : Outcome Parser.Spec)
        (jobId : string) (runtime : option string) (st : AppState)
        (j : Job) (message : string) :
  truthy (ANTHROPIC_API_KEY w) = true ->
  map_get jobId (jobs st) = Some j ->
  parsed = Throws message
  \/ (exists spec, parsed = Returns spec
                   /\ truthy (Parser.name spec) = false
                   /\ message = "Parser failed to generate valid spec") ->
  exists st' r,
    processJob_with parsed w jobId runtime st = (st', Returns tt)
    /\ map_get jobId (jobs st') = Some r
    /\ status r = "failed"
    /\ stage r = "parsing"
    /\ failed_at r = Some (now w)
    /\ errors r = Some [message]
    /\ result r = None
    /\ completed_at r = None
    /\ (forall c, In (Called c) (trace st') ->
                  In (Called c) (trace st) \/ c = Parse)
    /\ registry st' = registry st.
Proof.
  intros Hkey Hget [->|(spec & -> & Hname & ->)]; start Hkey Hget;
    try (rewrite Hname; run);
    (eexists _, _; split; [reflexivity|]; split;
     [cbn [jobs jobs_set log]; apply map_get_set|]);
    repeat (split; [reflexivity|]);
    (split; [|reflexivity]);
    cbn [trace jobs_set log]; intros c Hin;
    repeat (apply in_app_or in Hin; destruct Hin as [Hin|Hin]);
    try (now left);
    destruct Hin as [Hin|[]]; try discriminate;
    injection Hin as <-; now right.
Qed.

(** A parser that resolves to an object without a name: the guard of
    [processJob] fires. *)
Lemma parse_failure_fails_job_witness :
  exists st' r,
    processJob_with (Returns Samples.nameless_json) Samples.fine_world
                    "job_1_0a0b0c0d" None Samples.one_job
    = (st', Returns tt)
    /\ map_get "job_1_0a0b0c0d" (jobs st') = Some r
    /\ status r = "failed"
    /\ stage r = "parsing"
    /\ errors r = Some ["Parser failed to generate valid spec"]
    /\ includes "Parser failed to generate valid spec" "valid spec" = true.
Proof.
  destruct (parse_failure_fails_job Samples.fine_world
              (Returns Samples.nameless_json) "job_1_0a0b0c0d" None
              Samples.one_job (Samples.queued_job 900%Z)
              "Parser failed to generate valid spec"
              eq_refl eq_refl
              (or_intror (ex_intro _ Samples.nameless_json
                            (conj eq_refl (conj eq_refl eq_refl)))))
    as (st' & r & Hrun & Hget & Hs & Hg & _ & He & _).
  exists st', r. repeat split; assumption || reflexivity.
Defined.

(** C5 fails as stated: with the parser of [parser.js] a reply without
    [name] is rejected by the parser itself, so the recorded error does
    not mention [valid spec]; and the stage list already holds
    [parse]. *)
Lemma nameless_reply_job :
  exists r,
    map_get "job_1_0a0b0c0d"
      (jobs (fst (processJob Samples.nameless_world "job_1_0a0b0c0d"
                    "weather lookup tool" None Samples.one_job)))
    = Some r
    /\ status r = "failed"
    /\ stage r = "parsing"
    /\ errors r
       = Some ["Spec validation failed: Missing required field: name"]
    /\ includes "Spec validation failed: Missing required field: name"
                "valid spec" = false
    /\ stages_completed r = Some ["parse"]
    /\ stages_completed r <> Some [].
Proof.
  eexists. split; [vm_compute; reflexivity|].
  repeat split. discriminate.
Qed.

(** C1 (as the code has it).  When the validation of a job is not
    valid and holds an error that the filter of [processJob] selects
    (its text includes [TypeScript], [import] or [syntax]), the job ends
    failed at stage [validating] with the failure time stamped and the
    one error [Validation failed: ] followed by the selected entries;
    neither the packager nor the registry is called, no record with a
    later stage is stored, and the registry is untouched. *)
Theorem critical_errors_fail_job (w : World) (jobId : string)
        (runtime : option string) (st : AppState) (j : Job)
        (spec : Parser.Spec) (g : GenResult)
        (v : Validator.ValidationResult) :
  truthy (ANTHROPIC_API_KEY w) = true ->
  map_get jobId (jobs st) = Some j ->
  truthy (Parser.name spec) = true ->
  generate w spec ("/opt/swarm-mcp-factory/output/"
                   ++ interpolate (Parser.name spec)) = Returns g ->
  Validator.validate (serverDir g) (server_dir w (serverDir g))
  = Returns v ->
  Validator.valid v = false ->
  filter critical (Validator.errors v) <> [] ->
  exists st' r evs,
    processJob_with (Returns spec) w jobId runtime st = (st', Returns tt)
    /\ map_get jobId (jobs st') = Some r
    /\ status r = "failed"
    /\ stage r = "validating"
    /\ failed_at r = Some (now w)
    /\ errors r
       = Some ["Validation failed: "
               ++ join "; " (map entry_text
                               (filter critical (Validator.errors v)))]
    /\ result r = None
    /\ completed_at r = None
    /\ trace st' = app (trace st) evs
    /\ ~ In (Called Package) evs
    /\ ~ In (Called Register) evs
    /\ (forall id r', In (Stored id r') evs ->
                      stage r' <> "packaging" /\ stage r' <> "registering"
                      /\ stage r' <> "done")
    /\ registry st' = registry st.
Proof.
  intros Hkey Hget Hname Hgen Hval Hinv Hcrit. start Hkey Hget.
  rewrite Hname. run. rewrite Hgen. run. rewrite Hval. run.
  rewrite Hinv. run.
  destruct (filter critical (Validator.errors v)) as [|e es] eqn:Hf;
    [easy|].
  cbn [List.length Nat.ltb Nat.leb].
  eexists _, _, _. split; [reflexivity|]. split;
    [cbn [jobs jobs_set log]; apply map_get_set|].
  repeat (split; [reflexivity|]).
  split; [cbn [trace jobs_set log]; rewrite <- !app_assoc; reflexivity|].
  cbn [app]. split; [|split; [|split; [|reflexivity]]].
  - intros H. repeat (destruct H as [H|H]; try discriminate). exact H.
  - intros H. repeat (destruct H as [H|H]; try discriminate). exact H.
  - intros id r' H.
    repeat (destruct H as [H|H];
            [try discriminate;
             injection H as _ <-; repeat split; discriminate|]).
    destruct H.
Qed.

(** A directory whose compilation fails stops the job at validation. *)
Lemma critical_errors_fail_job_witness :
  exists st' r,
    processJob Samples.broken_world "job_1_0a0b0c0d" "weather lookup tool"
               None Samples.one_job
    = (st', Returns tt)
    /\ map_get "job_1_0a0b0c0d" (jobs st') = Some r
    /\ status r = "failed"
    /\ stage r = "validating"
    /\ errors r = Some ["Validation failed: [object Object]"]
    /\ ~ In (Called Package) (trace st')
    /\ ~ In (Called Register) (trace st').
Proof.
  destruct (critical_errors_fail_job Samples.broken_world "job_1_0a0b0c0d"
              None Samples.one_job (Samples.queued_job 900%Z)
              (Parser.apply_defaults "typescript" Samples.weather_json)
              {| serverDir := "/opt/swarm-mcp-factory/output/weather/mcp-weather";
                 files := ["package.json"; "src/index.ts"] |}
              {| Validator.valid := false;
                 Validator.errors :=
                   [Validator.EObject "typescript"
                      (Some "TypeScript compilation failed") None];
                 Validator.warnings := [] |}
              eq_refl eq_refl eq_refl eq_refl
              ltac:(vm_compute; reflexivity) eq_refl
              ltac:(vm_compute; discriminate))
    as (st' & r & evs & Hrun & Hget & Hs & Hg & _ & He & _ & _ & Ht & Hp
        & Hr & _).
  exists st', r. split; [exact Hrun|]. split; [exact Hget|].
  split; [exact Hs|]. split; [exact Hg|]. split; [exact He|].
  rewrite Ht. simpl. split; assumption.
Defined.

(** C1 fails as stated: the validation of a document that lists
    [get_forecast] without handling it reports [Missing tool handler],
    and the job goes on through packaging and registration and ends
    complete. *)
Lemma missing_handler_job_completes :
  Validator.validate "/opt/swarm-mcp-factory/output/weather/mcp-weather"
    (server_dir Samples.unhandled_world
       "/opt/swarm-mcp-factory/output/weather/mcp-weather")
  = Returns {| Validator.valid := false;
               Validator.errors :=
                 [Validator.EObject "protocol" None
                    (Some "Missing tool handler for 'get_forecast'")];
               Validator.warnings := [] |}
  /\ exists st' r,
      processJob Samples.unhandled_world "job_1_0a0b0c0d"
                 "weather lookup tool" None Samples.one_job
      = (st', Returns tt)
      /\ map_get "job_1_0a0b0c0d" (jobs st') = Some r
      /\ status r = "complete"
      /\ failed_at r = None
      /\ errors r = None
      /\ In (Called Package) (trace st')
      /\ In (Called Register) (trace st').
Proof.
  split; [vm_compute; reflexivity|].
  eexists _, _. split; [vm_compute; reflexivity|].
  split; [vm_compute; reflexivity|].
  repeat split; simpl; tauto.
Qed.

(** When the registry can be opened, [ensureRegistry] returns with the
    flag set and the database open if it had to open it. *)
Lemma ensureRegistry_returns w a :
  (registryInitialized a = false -> init_failure w = None) ->
  ensureRegistry w a
  = ({| jobs := jobs a;
        registry := if registryInitialized a then registry a
                    else {| Registry.opened := true;
                            Registry.table := Registry.table (registry a) |};
        registryInitialized := true;
        trace := trace a |}, Returns tt).
Proof.
  intros H. unfold ensureRegistry, bind, get, zoom, modify, ret.
  destruct a as [js r [|] t]; simpl in *; [reflexivity|].
  unfold Registry.init, modify. now rewrite H.
Qed.

(** [register] returns when the database opens, the name is not empty
    and the generated id is free if it is needed. *)
Lemma register_returns w m n r :
  Registry.m_name m = Some n ->
  truthy (Some n) = true ->
  (Registry.opened r = false -> init_failure w = None) ->
  (Registry.select_by_name n (Registry.table r) = None ->
   existsb (fun row => String.eqb (Registry.id row) (generateId w))
           (Registry.table r) = false) ->
  exists r' reply, Registry.register w m r = (r', Returns reply).
Proof.
  intros Hname Hnz Hopen Hid.
  unfold Registry.register, bind. rewrite (ensure_db_returns w r Hopen).
  rewrite Hname. unfold throw_if. rewrite Hnz. cbn [negb].
  unfold ret, Eff.get, modify. change (interpolate (Some n)) with n.
  cbn [Registry.table].
  destruct (Registry.select_by_name n (Registry.table r)) eqn:Hsel.
  - eexists _, _. reflexivity.
  - unfold Registry.insert, bind, Eff.get, modify, throw, ret.
    cbn [Registry.id Registry.name Registry.table].
    rewrite (Hid eq_refl), (existsb_name_none _ _ Hsel).
    eexists _, _. reflexivity.
Qed.

(** C6.  When all five stages of a job succeed (the key is set, the
    parser resolves to a named specification, the generator resolves,
    the validation is valid or holds no selected error, the packager
    resolves, the registry opens and accepts the registration), the job
    ends with status [complete] and stage [done], and the stage list of
    its result is [parse], [generate], [validate], [package],
    [register], in that order. *)
Theorem all_stages_complete_job (w : World) (jobId : string)
        (runtime : option string) (st : AppState) (j : Job)
        (spec : Parser.Spec) (g : GenResult)
        (v : Validator.ValidationResult) (p : PkgResult) :
  truthy (ANTHROPIC_API_KEY w) = true ->
  map_get jobId (jobs st) = Some j ->
  truthy (Parser.name spec) = true ->
  generate w spec ("/opt/swarm-mcp-factory/output/"
                   ++ interpolate (Parser.name spec)) = Returns g ->
  Validator.validate (serverDir g) (server_dir w (serverDir g))
  = Returns v ->
  Validator.valid v = true \/ filter critical (Validator.errors v) = [] ->
  package w (serverDir g) (Registry.default runtime "node") = Returns p ->
  (registryInitialized st = true /\ Registry.opened (registry st) = true)
  \/ init_failure w = None ->
  (Registry.select_by_name (interpolate (Parser.name spec))
     (Registry.table (registry st)) = None ->
   existsb (fun row => String.eqb (Registry.id row) (generateId w))
           (Registry.table (registry st)) = false) ->
  exists st' r res,
    processJob_with (Returns spec) w jobId runtime st = (st', Returns tt)
    /\ map_get jobId (jobs st') = Some r
    /\ status r = "complete"
    /\ stage r = "done"
    /\ completed_at r = Some (now w)
    /\ result r = Some res
    /\ res_stages_completed res
       = ["parse"; "generate"; "validate"; "package"; "register"]
    /\ errors r = None
    /\ failed_at r = None.
Proof.
  intros Hkey Hget Hname Hgen Hval Hok Hpkg Hreg Hid. start Hkey Hget.
  rewrite Hname. run. rewrite Hgen. run. rewrite Hval. run.
  destruct (Validator.valid v) eqn:Hv;
    [|destruct Hok as [Hok|Hok]; [discriminate|]; rewrite Hok].
  all: cbn [List.length Nat.ltb Nat.leb].
  all: run; rewrite Hpkg; run.
  all: match goal with
       | |- context [ensureRegistry ?w0 ?a] =>
           rewrite (ensureRegistry_returns w0 a)
             by (cbn [registryInitialized jobs_set log]; intros Hf;
                 destruct Hreg as [[Hi _]|Hi]; [congruence | exact Hi])
       end.
  all: run; cbn [registry registryInitialized jobs_set log].
  all: assert (Hn : exists n, Parser.name spec = Some n)
    by (destruct (Parser.name spec) as [n|];
        [now exists n | discriminate]).
  all: destruct Hn as [n Hn].
  all: match goal with
       | |- context [Registry.register ?w0 ?m ?r] =>
           destruct (register_returns w0 m n r) as (r' & reply & Er)
       end.
  all: try exact Hn.
  all: try (now rewrite <- Hn).
  all: try (destruct (registryInitialized st) eqn:Hi; [|discriminate];
            intros Ho; destruct Hreg as [[_ Ho']|Hf];
            [congruence | exact Hf]).
  all: try (rewrite Hn in Hid; cbn [interpolate] in Hid;
            destruct (registryInitialized st); exact Hid).
  all: rewrite Er; run.
  all: eexists _, _, _; (split; [reflexivity|]); (split;
      [cbn [jobs jobs_set log]; apply map_get_set|]).
  all: repeat split.
Qed.

(** The sample run of [weather lookup tool]. *)
Lemma all_stages_complete_job_witness :
  exists st' r res,
    processJob Samples.fine_world "job_1_0a0b0c0d" "weather lookup tool"
               None Samples.one_job
    = (st', Returns tt)
    /\ map_get "job_1_0a0b0c0d" (jobs st') = Some r
    /\ status r = "complete"
    /\ stage r = "done"
    /\ result r = Some res
    /\ res_stages_completed res
       = ["parse"; "generate"; "validate"; "package"; "register"].
Proof.
  destruct (all_stages_complete_job Samples.fine_world "job_1_0a0b0c0d"
              None Samples.one_job (Samples.queued_job 900%Z)
              (Parser.apply_defaults "typescript" Samples.weather_json)
              {| serverDir := "/opt/swarm-mcp-factory/output/weather/mcp-weather";
                 files := ["package.json"; "src/index.ts"] |}
              {| Validator.valid := true;
                 Validator.errors := [];
                 Validator.warnings := [] |}
              {| pkg_success := true;
                 manifestPath := Some "manifest.json" |}
              eq_refl eq_refl eq_refl eq_refl
              ltac:(vm_compute; reflexivity) (or_introl eq_refl) eq_refl
              (or_introl (conj eq_refl eq_refl)) (fun _ => eq_refl))
    as (st' & r & res & Hrun & Hget & Hs & Hg & _ & Hres & Hst & _).
  exists st', r, res. repeat split; assumption.
Defined.

End Runs.

(* ================================================================== *)
(** ** What the parser accepts                                         *)
(* ================================================================== *)

Section ParserFacts.
Import Js Parser.

Lemma app_nil_iff {A} (l1 l2 : list A) : app l1 l2 = [] <-> l1 = [] /\ l2 = [].
Proof.
  split; [apply app_eq_nil | intros [-> ->]; reflexivity].
Qed.

Lemma kebab_truthy n : kebab n = true -> truthy (Some n) = true.
Proof. destruct n; [discriminate | reflexivity]. Qed.

Lemma snake_truthy n : snake n = true -> truthy (Some n) = true.
Proof. destruct n; [discriminate | reflexivity]. Qed.

(** A tool passes when it has a snake_case name and a description. *)
Lemma tool_errors_nil i ts :
  tool_errors i ts = []
  <-> Forall (fun tool =>
                (exists n, tool_name tool = Some n /\ snake n = true)
                /\ truthy (tool_description tool) = true) ts.
Proof.
  revert i. induction ts as [|tool ts IH]; intros i; simpl.
  - split; [constructor | reflexivity].
  - rewrite !app_nil_iff, IH. split.
    + intros (Hn & Hd & Hs & Hts). constructor; [|exact Hts]. split.
      * destruct (tool_name tool) as [n|] eqn:En; [|discriminate].
        exists n. split; [reflexivity|].
        destruct (truthy (Some n)) eqn:Et; [|discriminate].
        simpl in Hs. destruct (snake n); [reflexivity | discriminate].
      * destruct (truthy (tool_description tool)); [easy | discriminate].
    + intros H. inversion H as [|? ? [(n & Hn & Hs) Hd] Hts]; subst.
      rewrite Hn, Hd. simpl interpolate.
      rewrite (snake_truthy n Hs), Hs. simpl. now repeat split.
Qed.

(** X1.  [validate] reports no error exactly for a specification with a
    kebab-case name, a description, at least one tool, in every tool a
    snake_case name and a description, and an authentication that is of
    type [none] or names its environment variable. *)
Theorem validate_accepts_iff (spec : Spec) :
  validate spec = []
  <-> (exists n, name spec = Some n /\ kebab n = true)
      /\ truthy (description spec) = true
      /\ (exists t ts,
            tools spec = Some (t :: ts)
            /\ Forall (fun tool =>
                         (exists n, tool_name tool = Some n
                                    /\ snake n = true)
                         /\ truthy (tool_description tool) = true)
                      (t :: ts))
      /\ (forall a, auth spec = Some a ->
                    auth_type a = Some "none"
                    \/ truthy (env_var a) = true).
Proof.
  unfold validate. rewrite !app_nil_iff. split.
  - intros (Hn & Hd & Ht & Hk & Hte & Ha).
    destruct (name spec) as [n|] eqn:En; [|discriminate].
    destruct (truthy (Some n)) eqn:Etn; [|discriminate].
    simpl in Hk. destruct (kebab n) eqn:Ek; [|discriminate].
    split; [now exists n|].
    split; [destruct (truthy (description spec)); [easy | discriminate]|].
    destruct (tools spec) as [[|t ts]|] eqn:Ets; try discriminate.
    split; [exists t, ts; split; [reflexivity | now apply tool_errors_nil
                                                   in Hte]|].
    intros a Ea. rewrite Ea in Ha. unfold auth_not_none in Ha.
    destruct (auth_type a) as [ty|].
    + destruct (String.eqb ty "none") eqn:E;
        [apply String.eqb_eq in E; subst ty; now left|].
      right. destruct (truthy (env_var a)); [reflexivity | discriminate].
    + right. destruct (truthy (env_var a)); [reflexivity | discriminate].
  - intros ((n & Hn & Hk) & Hd & (t & ts & Hts & Hall) & Ha).
    pose proof (proj2 (tool_errors_nil 0 (t :: ts)) Hall) as Hte.
    rewrite Hn, Hd, Hts, Hte. change (interpolate (Some n)) with n.
    rewrite (kebab_truthy n Hk), Hk. cbn [negb andb].
    do 5 (split; [reflexivity|]).
    destruct (auth spec) as [a|]; [|reflexivity].
    destruct (Ha a eq_refl) as [Hty|He].
    + unfold auth_not_none. now rewrite Hty.
    + rewrite He. now rewrite andb_false_r.
Qed.

(** X2.  The defaults never change the verdict: [validate] gives the
    same errors before and after them, so [parse] and [parseYAML]
    accept the same objects, and what [parse] resolves to is what
    [parseYAML] resolves to with the defaults applied. *)
Theorem defaults_keep_verdict (raw : Spec) (runtime : string) :
  validate (apply_defaults runtime raw) = validate raw
  /\ (forall spec,
        Yaml.parseYAML (Yaml.LoadedValue raw) = Returns spec ->
        parse (Object raw) runtime true
        = Returns (apply_defaults runtime spec))
  /\ (forall spec,
        parse (Object raw) runtime true = Returns spec ->
        Yaml.parseYAML (Yaml.LoadedValue raw) = Returns raw).
Proof.
  assert (H : validate (apply_defaults runtime raw) = validate raw).
  { unfold validate. simpl. repeat f_equal.
    destruct (auth raw); reflexivity. }
  split; [exact H|]. simpl. rewrite H. split; intros spec.
  - destruct (is_empty (validate raw)); simpl; [|discriminate].
    now intros [= <-].
  - destruct (is_empty (validate raw)); simpl; [|discriminate]. reflexivity.
Qed.

(** X3.  What [parse] resolves to is the object of the reply with the
    defaults in: a non-empty version, the requested runtime whatever
    the reply said, an authentication and a resource list; name,
    description and tools are the reply's, and with validation on they
    pass [validate]. *)
Theorem parse_resolves_with_defaults (reply : Reply) (runtime : string)
        (check : bool) (spec : Spec) :
  parse reply runtime check = Returns spec ->
  exists raw,
    reply = Object raw
    /\ name spec = name raw
    /\ description spec = description raw
    /\ tools spec = tools raw
    /\ truthy (version spec) = true
    /\ Parser.runtime spec = Some runtime
    /\ auth spec <> None
    /\ resources spec <> None
    /\ (check = true -> validate spec = []).
Proof.
  destruct reply as [m|m|m|raw]; simpl; try discriminate.
  intros H. exists raw. split; [reflexivity|].
  assert (Hs : spec = apply_defaults runtime raw
               /\ (check = true -> validate spec = [])).
  { destruct check.
    - destruct (validate (apply_defaults runtime raw)) eqn:Ev;
        simpl in H; [|discriminate].
      injection H as <-. now split.
    - injection H as <-. split; [reflexivity | discriminate]. }
  destruct Hs as [-> Hv]. simpl.
  repeat split; try exact Hv.
  - unfold or_else. destruct (version raw) as [v|]; [|reflexivity].
    destruct (String.eqb_spec v "") as [->|Hne]; [reflexivity|].
    simpl. now apply negb_true_iff, String.eqb_neq.
  - destruct (auth raw); discriminate.
  - destruct (resources raw); discriminate.
Qed.

Lemma parse_resolves_with_defaults_witness :
  parse (Object Samples.weather_json) "typescript" true
  = Returns (apply_defaults "typescript" Samples.weather_json)
  /\ truthy (version (apply_defaults "typescript" Samples.weather_json))
     = true
  /\ Parser.runtime (apply_defaults "typescript" Samples.weather_json)
     = Some "typescript"
  /\ validate (apply_defaults "typescript" Samples.weather_json) = [].
Proof.
  split; [reflexivity|].
  destruct (parse_resolves_with_defaults (Object Samples.weather_json)
              "typescript" true
              (apply_defaults "typescript" Samples.weather_json) eq_refl)
    as (raw & _ & _ & _ & _ & Hv & Hr & _ & _ & Hok).
  split; [exact Hv|]. split; [exact Hr | exact (Hok eq_refl)].
Defined.

End ParserFacts.

(* ================================================================== *)
(** ** Round trips of the registry                                     *)
(* ================================================================== *)

Section RegistryRoundTrips.
Import Js Eff Registry.

Lemma ensure_db_inv w st st1 o :
  ensure_db w st = (st1, o) ->
  table st1 = table st
  /\ match o with
     | Returns _ => opened st1 = true
     | Throws _ => st1 = st
     end.
Proof.
  unfold ensure_db, bind, Eff.get, init, throw, modify, ret.
  destruct st as [[|] t]; simpl.
  - intros [= <- <-]. now split.
  - destruct (init_failure w); intros [= <- <-]; now split.
Qed.

Lemma ensure_db_opened w st :
  opened st = true -> ensure_db w st = (st, Returns tt).
Proof.
  intros H. unfold ensure_db, bind, Eff.get, ret. now rewrite H.
Qed.

Lemma find_both {A} (p q : A -> bool) l x :
  find p l = Some x -> q x = true ->
  find (fun a => p a && q a) l = Some x.
Proof.
  induction l as [|a l IH]; simpl; [discriminate|].
  destruct (p a) eqn:Ep; simpl.
  - intros [= ->] Hq. now rewrite Hq.
  - exact IH.
Qed.

Lemma select_by_name_app_new n t row :
  select_by_name n t = None -> name row = n ->
  select_by_name n (app t [row]) = Some row.
Proof.
  unfold select_by_name. intros Hnone Hn.
  induction t as [|r t IH]; simpl in *.
  - rewrite Hn, String.eqb_refl. reflexivity.
  - destruct (String.eqb (name r) n); [discriminate | now apply IH].
Qed.

(** What [register] leaves behind when it returns: an open database and,
    under the name, a row with the fields of the manifest and the id of
    the reply. *)
Lemma register_returns_row w m n st st' reply :
  m_name m = Some n ->
  register w m st = (st', Returns reply) ->
  opened st' = true
  /\ r_name reply = n
  /\ r_version reply = default (m_version m) "1.0.0"
  /\ exists row,
      select_by_name n (table st') = Some row
      /\ id row = r_id reply
      /\ name row = n
      /\ version row = default (m_version m) "1.0.0"
      /\ description row = default (m_description m) ""
      /\ spec row = default (m_spec m) empty_spec
      /\ package_path row = m_package_path m
      /\ docker_image row = m_docker_image m
      /\ claude_config row = default (m_claude_config m) "{}"
      /\ updated_at row = now_iso w
      /\ (select_by_name n (table st) = None ->
          table st' = app (table st) [row] /\ action reply = "created").
Proof.
  intros Hname. unfold register, bind.
  destruct (ensure_db w st) as [st1 [[]|e]] eqn:E1; [|discriminate].
  destruct (ensure_db_inv _ _ _ _ E1) as [Ht Ho].
  rewrite Hname. unfold throw_if.
  destruct (truthy (Some n)) eqn:Hnz; cbn [negb]; [|discriminate].
  unfold ret, Eff.get, modify. change (interpolate (Some n)) with n.
  destruct (select_by_name n (table st1)) as [existing|] eqn:Hsel.
  - intros [= <- <-]. cbn [opened table r_name r_version r_id].
    split; [exact Ho|]. split; [reflexivity|]. split; [reflexivity|].
    destruct (select_by_name_some _ _ _ Hsel) as [_ Hn].
    eexists. split; [apply select_by_name_update; [reflexivity|exact Hsel]|].
    cbn. do 9 (split; [reflexivity || assumption|]).
    intros Hnone. rewrite <- Ht, Hsel in Hnone. discriminate.
  - unfold insert, bind, Eff.get, modify, throw, ret. cbn [id name].
    destruct (existsb _ (table st1)); [discriminate|].
    destruct (existsb _ (table st1)); [discriminate|].
    intros [= <- <-]. cbn [opened table r_name r_version r_id].
    split; [exact Ho|]. split; [reflexivity|]. split; [reflexivity|].
    eexists. split; [apply select_by_name_app_new; [exact Hsel|reflexivity]|].
    cbn. do 9 (split; [reflexivity|]). intros _. now rewrite Ht.
Qed.

(** X4.  What [register] stores, [get] returns: after a registration
    that returns, a lookup of the name, without a version or with the
    registered one, resolves to a row that carries the id of the reply
    and the version, description, specification, paths and
    configuration of the manifest, with the defaults for what the
    manifest leaves out. *)
Theorem register_then_get (w w' : World) (m : Manifest) (n : string)
        (st st' : State) (reply : Registered) :
  m_name m = Some n ->
  register w m st = (st', Returns reply) ->
  exists row,
    get w' n None st' = (st', Returns (Some row))
    /\ get w' n (Some (r_version reply)) st' = (st', Returns (Some row))
    /\ id row = r_id reply
    /\ name row = n
    /\ version row = default (m_version m) "1.0.0"
    /\ description row = default (m_description m) ""
    /\ spec row = default (m_spec m) empty_spec
    /\ package_path row = m_package_path m
    /\ docker_image row = m_docker_image m
    /\ claude_config row = default (m_claude_config m) "{}"
    /\ updated_at row = now_iso w.
Proof.
  intros Hname Hreg.
  destruct (register_returns_row _ _ _ _ _ _ Hname Hreg)
    as (Ho & _ & Hv & row & Hsel & Hid & Hn & Hver & Hrest).
  exists row. unfold get, bind, Eff.get, ret.
  rewrite (ensure_db_opened w' st' Ho).
  split; [cbn [truthy]; now rewrite Hsel|]. split.
  - destruct (truthy (Some (r_version reply))) eqn:Et.
    + f_equal. f_equal. change (interpolate (Some (r_version reply)))
        with (r_version reply).
      apply (find_both _ (fun r => String.eqb (version r) (r_version reply)));
        [exact Hsel|].
      rewrite Hver, Hv. apply String.eqb_refl.
    + now rewrite Hsel.
  - repeat split; try assumption; apply Hrest.
Qed.

Lemma register_then_get_witness :
  exists row,
    get Samples.fine_world "weather" None Samples.weather_registered
    = (Samples.weather_registered, Returns (Some row))
    /\ id row = "mcp_1_abc123"
    /\ version row = "1.0.0"
    /\ description row = ""
    /\ claude_config row = "{}".
Proof.
  destruct (register_then_get Samples.fine_world Samples.fine_world
              (Samples.manifest_named "weather" "1.0.0") "weather"
              {| opened := false; table := [] |}
              Samples.weather_registered
              {| r_id := "mcp_1_abc123"; r_name := "weather";
                 r_version := "1.0.0"; action := "created" |}
              eq_refl eq_refl)
    as (row & Hget & _ & Hid & _ & Hv & Hd & _ & _ & _ & Hc & _).
  exists row. repeat split; assumption.
Defined.

Lemma delete_by_name_absent n t :
  select_by_name n t = None -> delete_by_name n t = t.
Proof.
  unfold select_by_name, delete_by_name.
  induction t as [|r t IH]; simpl; [reflexivity|].
  destruct (String.eqb (name r) n); simpl; [discriminate|].
  intros H. f_equal. now apply IH.
Qed.

Lemma select_by_name_deleted n t : select_by_name n (delete_by_name n t) = None.
Proof.
  unfold select_by_name, delete_by_name.
  induction t as [|r t IH]; simpl; [reflexivity|].
  destruct (String.eqb (name r) n) eqn:E; simpl; [exact IH|].
  now rewrite E.
Qed.

(** X5.  With a database that opens, [remove] always returns: it
    reports whether a row of the name was there, leaves no row of that
    name and keeps every other row, so a lookup of the name afterwards
    resolves to [null]; for an absent name the table stays as it is and
    the reason is [not_found]. *)
Theorem remove_then_get (w w' : World) (n : string) (st : State) :
  (opened st = false -> init_failure w = None) ->
  exists st' reply,
    remove w n st = (st', Returns reply)
    /\ table st' = delete_by_name n (table st)
    /\ rows_named n (table st') = 0
    /\ (forall r, In r (table st) -> name r <> n -> In r (table st'))
    /\ get w' n None st' = (st', Returns None)
    /\ (forall existing, select_by_name n (table st) = Some existing ->
          removed reply = true /\ removed_name reply = Some n)
    /\ (select_by_name n (table st) = None ->
          removed reply = false /\ reason reply = Some "not_found"
          /\ table st' = table st).
Proof.
  intros Hopen. unfold remove, bind.
  rewrite (ensure_db_returns w st Hopen). unfold Eff.get, ret, modify.
  cbn [table].
  assert (Hget : forall t,
             get w' n None {| opened := true; table := delete_by_name n t |}
             = ({| opened := true; table := delete_by_name n t |},
                Returns None)).
  { intros t. unfold get, bind, Eff.get, ret.
    rewrite ensure_db_opened by reflexivity. cbn [truthy table].
    now rewrite select_by_name_deleted. }
  assert (Hzero : forall t, rows_named n (delete_by_name n t) = 0).
  { intros t. apply rows_named_absent, select_by_name_none,
      select_by_name_deleted. }
  assert (Hkeep : forall t r, In r t -> name r <> n ->
                              In r (delete_by_name n t)).
  { intros t r Hin Hne. apply filter_In. split; [exact Hin|].
    now apply negb_true_iff, String.eqb_neq. }
  destruct (select_by_name n (table st)) as [existing|] eqn:Hsel.
  - eexists _, _. split; [reflexivity|]. cbn [table opened].
    split; [reflexivity|]. split; [apply Hzero|].
    split; [apply Hkeep|]. split; [apply Hget|].
    split; [intros; now split | discriminate].
  - pose proof (delete_by_name_absent n (table st) Hsel) as Hsame.
    eexists _, _. split; [reflexivity|]. cbn [table reason removed].
    split; [now rewrite Hsame|].
    split; [rewrite <- Hsame; apply Hzero|].
    split; [intros r Hin _; exact Hin|].
    split; [rewrite <- Hsame; apply Hget|].
    split; [discriminate|]. intros _. now repeat split.
Qed.

Lemma remove_then_get_witness :
  exists st' reply,
    remove Samples.fine_world "weather" Samples.weather_registered
    = (st', Returns reply)
    /\ rows_named "weather" (table st') = 0
    /\ get Samples.fine_world "weather" None st' = (st', Returns None)
    /\ removed reply = true.
Proof.
  destruct (remove_then_get Samples.fine_world Samples.fine_world "weather"
              Samples.weather_registered (fun _ => eq_refl))
    as (st' & reply & Hrun & _ & Hnone & _ & Hget & Hsome & _).
  exists st', reply. split; [exact Hrun|]. split; [exact Hnone|].
  split; [exact Hget|].
  destruct (select_by_name "weather" (table Samples.weather_registered))
    as [existing|] eqn:E; [|vm_compute in E; discriminate].
  exact (proj1 (Hsome existing eq_refl)).
Defined.

(** X6.  Registering a name the table does not hold and removing it
    again gives the table back as it was. *)
Theorem register_then_remove (w w' : World) (m : Manifest) (n : string)
        (st st' : State) (reply : Registered) :
  m_name m = Some n ->
  select_by_name n (table st) = None ->
  register w m st = (st', Returns reply) ->
  table (fst (remove w' n st')) = table st
  /\ exists out, snd (remove w' n st') = Returns out /\ removed out = true.
Proof.
  intros Hname Hsel Hreg.
  destruct (register_returns_row _ _ _ _ _ _ Hname Hreg)
    as (Ho & _ & _ & row & Hrow & _ & Hn & _ & _ & _ & _ & _ & _ & _ & Hnew).
  destruct (Hnew Hsel) as [Ht _].
  unfold remove, bind. rewrite (ensure_db_opened w' st' Ho).
  unfold Eff.get, ret, modify. rewrite Hrow. cbn [fst snd table].
  split; [|eexists; split; reflexivity].
  rewrite Ht. unfold delete_by_name. rewrite filter_app. cbn [filter].
  rewrite Hn, String.eqb_refl. cbn [negb]. rewrite app_nil_r.
  apply (delete_by_name_absent n (table st) Hsel).
Qed.

Lemma register_then_remove_witness :
  table (fst (remove Samples.fine_world "weather"
                Samples.weather_registered)) = []
  /\ exists out,
      snd (remove Samples.fine_world "weather" Samples.weather_registered)
      = Returns out
      /\ removed out = true.
Proof.
  exact (register_then_remove Samples.fine_world Samples.fine_world
           (Samples.manifest_named "weather" "1.0.0") "weather"
           {| opened := false; table := [] |}
           Samples.weather_registered
           {| r_id := "mcp_1_abc123"; r_name := "weather";
              r_version := "1.0.0"; action := "created" |}
           eq_refl eq_refl eq_refl).
Defined.

Lemma existsb_id_false i t :
  existsb (fun r => String.eqb (id r) i) t = false -> ~ In i (map id t).
Proof.
  intros H Hin. apply in_map_iff in Hin. destruct Hin as (r & Hr & Hin).
  assert (existsb (fun r => String.eqb (id r) i) t = true)
    by (apply existsb_exists; exists r; split;
        [exact Hin | now apply String.eqb_eq]).
  congruence.
Qed.

Lemma register_ids_ok w m st :
  NoDup (map id (table st)) ->
  NoDup (map id (table (fst (register w m st)))).
Proof.
  intros Hnd. unfold register, bind.
  destruct (ensure_db w st) as [st1 [[]|e]] eqn:E1;
    destruct (ensure_db_inv _ _ _ _ E1) as [Ht _];
    [|simpl; now rewrite Ht].
  unfold throw_if.
  destruct (negb (truthy (m_name m)));
    [unfold throw; simpl; now rewrite Ht|].
  unfold ret, Eff.get.
  destruct (select_by_name _ (table st1)) as [existing|].
  - unfold modify. cbn [fst table].
    rewrite update_by_name_ids by reflexivity. now rewrite Ht.
  - unfold insert, bind, Eff.get, modify, throw, ret. cbn [id name].
    destruct (existsb (fun r => String.eqb (id r) _) (table st1)) eqn:Eid;
      [simpl; now rewrite Ht|].
    destruct (existsb (fun r => String.eqb (name r) _) (table st1));
      [simpl; now rewrite Ht|].
    simpl. rewrite map_app. simpl. rewrite Ht in *.
    apply NoDup_app; [exact Hnd | repeat constructor; easy |].
    intros x Hx [<-|[]]. now apply (existsb_id_false _ _ Eid).
Qed.

Lemma delete_by_name_ids_nodup n t :
  NoDup (map id t) -> NoDup (map id (delete_by_name n t)).
Proof.
  unfold delete_by_name. induction t as [|row t IH]; simpl; [constructor|].
  intros Hnd. inversion Hnd as [|? ? Hnotin Hnd']; subst.
  destruct (negb (String.eqb (name row) n)); simpl; [|now apply IH].
  constructor; [|now apply IH].
  intros Hin. apply Hnotin. apply in_map_iff in Hin.
  destruct Hin as (r' & Hr' & Hin). apply filter_In in Hin.
  rewrite <- Hr'. now apply in_map.
Qed.

(** X7.  In every state the class can reach from an empty database
    file, no two rows share an id, no two rows share a name, and no row
    has an empty name. *)
Theorem registry_keys_unique (st : State) :
  reachable st ->
  NoDup (map id (table st))
  /\ NoDup (map name (table st))
  /\ Forall (fun r => name r <> "") (table st).
Proof.
  intros Hr. split; [|exact (reachable_names_ok st Hr)].
  induction Hr as [ | st _ IH | w st _ IH | w m st _ IH | w n v st _ IH
                  | w n st _ IH | st _ IH ].
  - constructor.
  - exact IH.
  - unfold init, throw, modify. now destruct (init_failure w).
  - now apply register_ids_ok.
  - unfold get, bind, Eff.get, ret.
    destruct (ensure_db w st) as [st1 [[]|e]] eqn:E1;
      destruct (ensure_db_inv _ _ _ _ E1) as [Ht _];
      simpl; now rewrite Ht.
  - unfold remove, bind, Eff.get, ret, modify.
    destruct (ensure_db w st) as [st1 [[]|e]] eqn:E1;
      destruct (ensure_db_inv _ _ _ _ E1) as [Ht _];
      simpl; [|now rewrite Ht].
    destruct (select_by_name n (table st1)); simpl; rewrite Ht;
      [now apply delete_by_name_ids_nodup | exact IH].
  - exact IH.
Qed.

Lemma registry_keys_unique_witness :
  NoDup (map id (table Samples.weather_registered))
  /\ NoDup (map name (table Samples.weather_registered))
  /\ Forall (fun r => name r <> "") (table Samples.weather_registered).
Proof.
  exact (registry_keys_unique Samples.weather_registered
           (reach_register Samples.fine_world
              (Samples.manifest_named "weather" "1.0.0") _ reach_new)).
Defined.

End RegistryRoundTrips.

(* ================================================================== *)
(** ** How a job run ends                                              *)
(* ================================================================== *)

Section JobRuns.
Import Js Eff Api.

Ltac run :=
  cbv beta iota zeta delta
      [pipeline bind throw_if throw ret modify enter call await try_catch
       on_error zoom with_app fst snd globals job stages negb].

Lemma ensureRegistry_table w a :
  Registry.table (registry (fst (ensureRegistry w a)))
  = Registry.table (registry a).
Proof.
  unfold ensureRegistry, bind, get, zoom, modify, ret.
  destruct (registryInitialized a); simpl; [easy|].
  unfold Registry.init, throw, modify.
  destruct (init_failure w); simpl; easy.
Qed.

Lemma register_throws_table w m r r' e :
  Registry.register w m r = (r', Throws e) ->
  Registry.table r' = Registry.table r.
Proof.
  unfold Registry.register, bind.
  destruct (Registry.ensure_db w r) as [r1 [[]|e1]] eqn:E1;
    destruct (ensure_db_inv _ _ _ _ E1) as [Ht Ho].
  - unfold throw_if.
    destruct (negb (truthy (Registry.m_name m)));
      [unfold throw; now intros [= <- _]|].
    unfold ret, Eff.get, modify.
    destruct (Registry.select_by_name _ (Registry.table r1));
      [discriminate|].
    unfold Registry.insert, bind, Eff.get, modify, throw, ret.
    destruct (existsb _ (Registry.table r1)); [now intros [= <- _]|].
    destruct (existsb _ (Registry.table r1)); [now intros [= <- _]|].
    discriminate.
  - now intros [= <- _].
Qed.

Ltac failed_case :=
  eexists _, _; split; [reflexivity|]; split;
  [cbn [jobs jobs_set log]; apply map_get_set|];
  right; split; [reflexivity|]; split; [eexists; reflexivity|];
  split; [reflexivity|]; split;
  [cbn; repeat (first [left; reflexivity | right])|].

(** Every way a run of a job the map holds can go. *)
Lemma job_run_cases parsed w jobId runtime st j :
  map_get jobId (jobs st) = Some j ->
  exists st' r,
    processJob_with parsed w jobId runtime st = (st', Returns tt)
    /\ map_get jobId (jobs st') = Some r
    /\ ((status r = "complete" /\ stage r = "done"
         /\ errors r = None
         /\ exists res row,
             result r = Some res
             /\ res_stages_completed res
                = ["parse"; "generate"; "validate"; "package"; "register"]
             /\ Registry.select_by_name (res_name res)
                  (Registry.table (registry st')) = Some row
             /\ Registry.id row = Registry.r_id (res_manifest res)
             /\ Registry.name row = res_name res
             /\ Registry.version row
                = Registry.r_version (res_manifest res)
             /\ Registry.version row
                = or_else (Parser.version (res_spec res)) "1.0.0"
             /\ Registry.description row = res_description res
             /\ Registry.spec row = res_spec res
             /\ Registry.package_path row = res_package_path res
             /\ Registry.docker_image row = None
             /\ Registry.claude_config row = "{}")
        \/ (status r = "failed"
            /\ (exists m, errors r = Some [m])
            /\ result r = None
            /\ In (stage r, stages_completed r)
                  [(stage j, Some []);
                   ("parsing", Some ["parse"]);
                   ("generating", Some ["parse"; "generate"]);
                   ("validating", Some ["parse"; "generate"; "validate"]);
                   ("packaging",
                    Some ["parse"; "generate"; "validate"; "package"]);
                   ("registering",
                    Some ["parse"; "generate"; "validate"; "package";
                          "register"])]
            /\ Registry.table (registry st')
               = Registry.table (registry st))).
Proof.
  intros Hget. unfold processJob_with. rewrite Hget.
  unfold try_catch, pipeline. unfold bind at 1. unfold throw_if at 1.
  destruct (truthy (ANTHROPIC_API_KEY w)); run;
    [|failed_case; reflexivity].
  destruct parsed as [spec|m]; run; [|failed_case; reflexivity].
  destruct (truthy (Parser.name spec)) eqn:Hname; run;
    [|failed_case; reflexivity].
  destruct (generate w spec _) as [g|m]; run; [|failed_case; reflexivity].
  destruct (Validator.validate _ _) as [v|m]; run;
    [|failed_case; reflexivity].
  destruct (Validator.valid v); cbn [negb].
  all: try destruct (Nat.ltb 0 _); run.
  all: try (failed_case; reflexivity).
  all: destruct (package w _ _) as [p|m]; run;
    [|failed_case; reflexivity].
  all: match goal with
       | |- context [ensureRegistry ?w0 ?a] =>
           pose proof (ensureRegistry_table w0 a) as Het;
           destruct (ensureRegistry w0 a) as [a1 [[]|m]]; run
       end.
  all: try (failed_case; cbn [registry jobs_set log fst] in *; exact Het).
  all: cbn [registry log] in *.
  all: destruct (Parser.name spec) as [n|] eqn:Hn; [|discriminate].
  all: match goal with
       | |- context [Registry.register ?w0 ?m ?r] =>
           destruct (Registry.register w0 m r) as [r' [reply|e]] eqn:Er; run
       end.
  all: try (failed_case; cbn [registry with_registry jobs_set log fst] in *;
            rewrite (register_throws_table _ _ _ _ _ Er); exact Het).
  all: pose proof (fun Hm => register_returns_row _ _ n _ _ _ Hm Er) as Hrr;
    destruct (Hrr eq_refl)
      as (_ & _ & Hrv & row & Hrow & Hid & Hnm & Hver & Hdesc & Hspec
          & Hpp & Hdock & Hcc & _).
  all: eexists _, _; (split; [reflexivity|]); (split;
      [cbn [jobs jobs_set log]; apply map_get_set|]).
  all: left; do 3 (split; [reflexivity|]).
  all: eexists _, row; (split; [reflexivity|]); (split; [reflexivity|]).
  all: cbn [res_name res_manifest registry with_registry jobs_set log
            interpolate]; (split; [assumption|]); (split; [assumption|]).
  all: split; [exact Hnm|]; split; [exact (eq_trans Hver (eq_sym Hrv))|].
  all: split; [exact Hver|]; split; [exact Hdesc|]; split; [exact Hspec|].
  all: split; [exact Hpp|]; split; [exact Hdock | exact Hcc].
Qed.



(** X9.  A run that ends failed leaves the table of the registry as it
    was; a run that ends complete leaves, under the name of its result,
    a row whose id is the one in the manifest of the result. *)
Theorem failed_job_registers_nothing (parsed : Outcome Parser.Spec)
        (w : World) (jobId : string) (runtime : option string)
        (st : AppState) (j r : Job) :
  map_get jobId (jobs st) = Some j ->
  map_get jobId
    (jobs (fst (processJob_with parsed w jobId runtime st))) = Some r ->
  (status r = "failed" ->
   Registry.table (registry (fst (processJob_with parsed w jobId runtime st)))
   = Registry.table (registry st))
  /\ (status r = "complete" ->
      exists res row,
        result r = Some res
        /\ Registry.select_by_name (res_name res)
             (Registry.table
                (registry (fst (processJob_with parsed w jobId runtime st))))
           = Some row
        /\ Registry.id row = Registry.r_id (res_manifest res)).
Proof.
  intros Hget.
  destruct (job_run_cases parsed w jobId runtime st j Hget)
    as (st' & r' & Hrun & Hr & Hcases).
  rewrite Hrun. cbn [fst]. rewrite Hr. intros [= <-].
  destruct Hcases as [(Hs & _ & _ & res & row & Hres & _ & Hrow & Hid & _)
                     |(Hs & _ & _ & _ & Ht)].
  - split; [rewrite Hs; discriminate|]. intros _. now exists res, row.
  - split; [intros _; exact Ht | rewrite Hs; discriminate].
Qed.

Lemma failed_job_registers_nothing_witness :
  Registry.table
    (registry (fst (processJob_with (Throws "overloaded")
                      Samples.fine_world "job_1_0a0b0c0d" None
                      Samples.one_job)))
  = Registry.table (registry Samples.one_job).
Proof.
  apply (failed_job_registers_nothing (Throws "overloaded")
           Samples.fine_world "job_1_0a0b0c0d" None Samples.one_job
           (Samples.queued_job 900%Z) _ eq_refl
           ltac:(vm_compute; reflexivity)).
  reflexivity.
Defined.

(** X22.  The registry row of a completed job agrees with the result
    of the job: the row found under the name of the result has that
    name, the id and the version of the manifest in the result, the
    version of the specification or [1.0.0] without one, and the
    description, the specification and the package path of the result;
    it has no docker image and the configuration [{}], which [processJob]
    does not pass to [register]. *)
Theorem completed_job_row_matches_result (parsed : Outcome Parser.Spec)
        (w : World) (jobId : string) (runtime : option string)
        (st : AppState) (j r : Job) :
  map_get jobId (jobs st) = Some j ->
  map_get jobId
    (jobs (fst (processJob_with parsed w jobId runtime st))) = Some r ->
  status r = "complete" ->
  exists res row,
    result r = Some res
    /\ Registry.select_by_name (res_name res)
         (Registry.table
            (registry (fst (processJob_with parsed w jobId runtime st))))
       = Some row
    /\ Registry.name row = res_name res
    /\ Registry.id row = Registry.r_id (res_manifest res)
    /\ Registry.version row = Registry.r_version (res_manifest res)
    /\ Registry.version row
       = or_else (Parser.version (res_spec res)) "1.0.0"
    /\ Registry.description row = res_description res
    /\ Registry.spec row = res_spec res
    /\ Registry.package_path row = res_package_path res
    /\ Registry.docker_image row = None
    /\ Registry.claude_config row = "{}".
Proof.
  intros Hget.
  destruct (job_run_cases parsed w jobId runtime st j Hget)
    as (st' & r' & Hrun & Hr & Hcases).
  rewrite Hrun. cbn [fst]. rewrite Hr. intros [= <-] Hc.
  destruct Hcases
    as [(_ & _ & _ & res & row & Hres & _ & Hrow & Hrest)
       |(Hs & _)]; [|rewrite Hs in Hc; discriminate].
  exists res, row. split; [exact Hres|]. split; [exact Hrow|].
  destruct Hrest as (Hid & Hnm & Hrest). split; [exact Hnm|].
  split; [exact Hid | exact Hrest].
Qed.

Lemma completed_job_row_matches_result_witness :
  exists r res row,
    map_get "job_1_0a0b0c0d"
      (jobs (fst (processJob_with
                    (Returns (Parser.apply_defaults "typescript"
                                Samples.weather_json))
                    Samples.fine_world "job_1_0a0b0c0d" None
                    Samples.one_job)))
    = Some r
    /\ status r = "complete"
    /\ result r = Some res
    /\ Registry.name row = res_name res
    /\ Registry.spec row = res_spec res
    /\ Registry.version row = "1.0.0".
Proof.
  destruct (map_get "job_1_0a0b0c0d"
              (jobs (fst (processJob_with
                            (Returns (Parser.apply_defaults "typescript"
                                        Samples.weather_json))
                            Samples.fine_world "job_1_0a0b0c0d" None
                            Samples.one_job)))) as [r|] eqn:Er.
  2:{ vm_compute in Er. discriminate. }
  assert (Hs : status r = "complete"
               /\ forall res, result r = Some res ->
                    or_else (Parser.version (res_spec res)) "1.0.0"
                    = "1.0.0").
  { vm_compute in Er. injection Er as <-. split; [reflexivity|].
    intros res [= <-]. reflexivity. }
  destruct Hs as [Hs Hv].
  destruct (completed_job_row_matches_result
              (Returns (Parser.apply_defaults "typescript"
                          Samples.weather_json))
              Samples.fine_world "job_1_0a0b0c0d" None Samples.one_job
              (Samples.queued_job 900%Z) r eq_refl Er Hs)
    as (res & row & Hres & _ & Hnm & _ & _ & Hver & _ & Hspec & _).
  exists r, res, row. repeat split; try assumption.
  rewrite Hver. exact (Hv res Hres).
Defined.

Lemma map_get_set_other {V} k k' (v : V) m :
  k <> k' -> map_get k' (map_set k v m) = map_get k' m.
Proof.
  intros Hne. induction m as [|[k0 v0] m IH]; simpl.
  - apply String.eqb_neq in Hne. now rewrite Hne.
  - destruct (String.eqb k0 k) eqn:E; simpl.
    + apply String.eqb_eq in E. subst k0.
      apply String.eqb_neq in Hne. now rewrite Hne.
    + now rewrite IH.
Qed.

(** X10.  A run touches no job but its own: every other id maps to the
    record it had, and the map holds the same ids in the same order, for
    an id the map does not hold as well. *)
Theorem job_run_touches_own_record (parsed : Outcome Parser.Spec)
        (w : World) (jobId other : string) (runtime : option string)
        (st : AppState) :
  jobId <> other ->
  map_get other (jobs (fst (processJob_with parsed w jobId runtime st)))
  = map_get other (jobs st)
  /\ map fst (jobs (fst (processJob_with parsed w jobId runtime st)))
     = map fst (jobs st).
Proof.
  intros Hne. split; [|apply processJob_with_keeps_order].
  unfold processJob_with.
  destruct (map_get jobId (jobs st)) as [j|]; [|reflexivity].
  assert (Hset : forall r a,
             map_get other (jobs a) = map_get other (jobs st) ->
             map_get other (jobs (jobs_set jobId r a))
             = map_get other (jobs st)).
  { intros r a Ha. simpl. now rewrite map_get_set_other. }
  assert (Hp : preserves
                 (fun f => map_get other (jobs (globals f))
                           = map_get other (jobs st))
                 (try_catch
                    (pipeline w parsed jobId (Registry.default runtime "node"))
                    (on_error w jobId))).
  { apply preserves_try_catch.
    - apply pipeline_keeps.
      + intros s n. apply preserves_modify. intros f Hf. now apply Hset.
      + intros c f Hf. exact Hf.
      + apply (preserves_zoom _ (fun a => map_get other (jobs a)
                                          = map_get other (jobs st)));
          [easy | easy |].
        apply ensureRegistry_keeps. easy.
      + intros m.
        apply (preserves_zoom _ (fun a => map_get other (jobs a)
                                          = map_get other (jobs st)));
          [easy | easy |].
        apply registry_zoom_keeps. easy.
      + intros r f Hf. now apply Hset.
    - intros e. apply preserves_modify. intros f Hf. now apply Hset. }
  specialize (Hp {| globals := st; job := j; stages := [] |} eq_refl).
  destruct (try_catch _ _ _) as [f o]. exact Hp.
Qed.

Lemma job_run_touches_own_record_witness :
  map_get "job_1"
    (jobs (fst (processJob_with (Throws "overloaded") Samples.fine_world
                  "job_2" None Samples.three_jobs)))
  = map_get "job_1" (jobs Samples.three_jobs)
  /\ map fst
       (jobs (fst (processJob_with (Throws "overloaded") Samples.fine_world
                     "job_2" None Samples.three_jobs)))
     = map fst (jobs Samples.three_jobs).
Proof.
  apply (job_run_touches_own_record (Throws "overloaded")
           Samples.fine_world "job_2" "job_1" None Samples.three_jobs).
  discriminate.
Defined.

(** X11.  Without an API key a run calls no collaborator and stores one
    record: the job fails at the stage its record had, with the message
    about the key and an empty stage list, and the registry is left
    alone. *)
Theorem missing_key_fails_unstarted (parsed : Outcome Parser.Spec)
        (w : World) (jobId : string) (runtime : option string)
        (st : AppState) (j : Job) :
  truthy (ANTHROPIC_API_KEY w) = false ->
  map_get jobId (jobs st) = Some j ->
  exists st' r,
    processJob_with parsed w jobId runtime st = (st', Returns tt)
    /\ map_get jobId (jobs st') = Some r
    /\ status r = "failed"
    /\ stage r = stage j
    /\ errors r = Some ["ANTHROPIC_API_KEY environment variable not set"]
    /\ stages_completed r = Some []
    /\ trace st' = app (trace st) [Stored jobId r]
    /\ registry st' = registry st.
Proof.
  intros Hkey Hget. unfold processJob_with. rewrite Hget.
  unfold try_catch, pipeline. unfold bind at 1. unfold throw_if at 1.
  rewrite Hkey. run.
  eexists _, _. split; [reflexivity|]. split;
    [cbn [jobs jobs_set log]; apply map_get_set|].
  repeat split.
Qed.

Lemma missing_key_fails_unstarted_witness :
  exists st' r,
    processJob_with
      (Returns (Parser.apply_defaults "typescript" Samples.weather_json))
      Cases.keyless_world "job_1_0a0b0c0d" None Samples.one_job
    = (st', Returns tt)
    /\ map_get "job_1_0a0b0c0d" (jobs st') = Some r
    /\ status r = "failed"
    /\ stage r = "queued"
    /\ stages_completed r = Some []
    /\ trace st' = [Stored "job_1_0a0b0c0d" r].
Proof.
  destruct (missing_key_fails_unstarted
              (Returns (Parser.apply_defaults "typescript"
                          Samples.weather_json))
              Cases.keyless_world "job_1_0a0b0c0d" None Samples.one_job
              (Samples.queued_job 900%Z) eq_refl eq_refl)
    as (st' & r & Hrun & Hget & Hs & Hg & _ & Hc & Ht & _).
  exists st', r. repeat split; assumption.
Defined.

(** X23.  The run of a job never reads what the packager resolves to:
    with two packagers that resolve, the run ends in the same state with
    the same records, so a build that fails, which the packager reports
    by resolving with [success: false], fails no job. *)
Theorem build_result_is_never_read (parsed : Outcome Parser.Spec)
        (w : World) (pk pk' : string -> string -> Outcome PkgResult)
        (jobId : string) (runtime : option string) (st : AppState) :
  (forall d r, exists p, pk d r = Returns p) ->
  (forall d r, exists p, pk' d r = Returns p) ->
  processJob_with parsed (Cases.with_package pk w) jobId runtime st
  = processJob_with parsed (Cases.with_package pk' w) jobId runtime st.
Proof.
  intros Hpk Hpk'. unfold processJob_with.
  destruct (map_get jobId (jobs st)) as [j|]; [|reflexivity].
  unfold try_catch, pipeline.
  cbn [Cases.with_package ANTHROPIC_API_KEY generate server_dir package].
  change (ensureRegistry (Cases.with_package pk w))
    with (ensureRegistry w).
  change (ensureRegistry (Cases.with_package pk' w))
    with (ensureRegistry w).
  run.
  destruct (truthy (ANTHROPIC_API_KEY w)); [|reflexivity].
  destruct parsed as [spec|m]; [|reflexivity].
  destruct (truthy (Parser.name spec)) eqn:Hname; [|reflexivity].
  destruct (generate w spec _) as [g|m]; [|reflexivity].
  destruct (Validator.validate _ _) as [v|m]; [|reflexivity].
  match goal with
  | |- context [pk ?d ?r] =>
      destruct (Hpk d r) as [p Hp]; destruct (Hpk' d r) as [p' Hp'];
      rewrite Hp, Hp'
  end.
  destruct (Validator.valid v).
  all: try destruct (Nat.ltb 0 _); reflexivity.
Qed.

Lemma build_result_is_never_read_witness :
  processJob_with
    (Returns (Parser.apply_defaults "typescript" Samples.weather_json))
    (Cases.with_package Cases.build_fails Samples.fine_world)
    "job_1_0a0b0c0d" None Samples.one_job
  = processJob_with
      (Returns (Parser.apply_defaults "typescript" Samples.weather_json))
      (Cases.with_package (package Samples.fine_world) Samples.fine_world)
      "job_1_0a0b0c0d" None Samples.one_job.
Proof.
  apply build_result_is_never_read.
  - intros d r. eexists. reflexivity.
  - intros d r. eexists. reflexivity.
Defined.

End JobRuns.

(* ================================================================== *)
(** ** The job and validation endpoints                                *)
(* ================================================================== *)

Section EndpointFacts.
Import Js Eff Api Endpoints.

(** X12.  A submission without a description changes nothing and is
    answered 400.  An accepted one is answered with its job id and the
    status [processing]; once the [processJob] call the handler
    schedules has run to its first [await], the status endpoint finds
    under that id the record at stage [parsing], or, without the API
    key, the failed record at stage [queued] with the message about the
    key, whatever the map held under the id before, and every other id
    is answered as before the submission; once the run has settled, the
    endpoint finds a complete or a failed record. *)
Theorem submitted_job_is_found (w : World) (description : option string)
        (runtime : option string) (st : AppState) :
  (truthy description = false ->
   generate_request w description st
   = (st, Returns (Rejected 400 "Missing or invalid description field")))
  /\ (truthy description = true ->
      snd (generate_request w description st)
      = Returns (Queued (generateJobId w) "processing")
      /\ get_job (generateJobId w) (fst (generate_request w description st))
         = JobFound (generateJobId w)
             (if truthy (ANTHROPIC_API_KEY w)
              then {| status := "processing"; stage := "parsing";
                      created_at := now w; completed_at := None;
                      failed_at := None; result := None; errors := None;
                      stages_completed := None |}
              else {| status := "failed"; stage := "queued";
                      created_at := now w; completed_at := None;
                      failed_at := Some (now w); result := None;
                      errors :=
                        Some ["ANTHROPIC_API_KEY environment variable not set"];
                      stages_completed := Some [] |})
      /\ (forall other,
            generateJobId w <> other ->
            get_job other (fst (generate_request w description st))
            = get_job other st)
      /\ exists r,
          get_job (generateJobId w)
            (fst (processJob w (generateJobId w) (interpolate description)
                    runtime (fst (post_generate w description st))))
          = JobFound (generateJobId w) r
          /\ (status r = "complete" \/ status r = "failed")).
Proof.
  unfold generate_request, post_generate.
  split; intros Hd; rewrite Hd; cbn [negb]; [reflexivity|].
  unfold bind at 1 2 3. unfold modify at 1 2 3. unfold ret at 1 2 3.
  cbn [fst snd]. unfold processJob_head.
  cbn [jobs jobs_set log]. rewrite map_get_set.
  split; [reflexivity|].
  split.
  { unfold get_job, try_catch, bind, throw_if.
    destruct (truthy (ANTHROPIC_API_KEY w)); cbn; now rewrite map_get_set. }
  split.
  { intros other Hne. unfold get_job, try_catch, bind, throw_if.
    destruct (truthy (ANTHROPIC_API_KEY w)); cbn;
      now rewrite !map_get_set_other. }
  match goal with
  | |- context [processJob ?w0 ?i ?d ?rt ?s0] =>
      destruct (job_run_cases
                  (Parser.parse (llm w0 d "typescript") "typescript" true)
                  w0 i rt s0
                  {| status := "processing"; stage := "queued";
                     created_at := now w; completed_at := None;
                     failed_at := None; result := None; errors := None;
                     stages_completed := None |})
        as (st' & r & Hrun & Hr & Hcases);
      [cbn [jobs jobs_set log]; apply map_get_set|]
  end.
  exists r. unfold processJob. rewrite Hrun. cbn [fst]. unfold get_job.
  rewrite Hr. split; [reflexivity|].
  destruct Hcases as [(Hs & _)|(Hs & _)]; [now left | now right].
Qed.

Lemma skipn_min {A} (k : nat) (l : list A) :
  skipn (Nat.min k (List.length l)) l = skipn k l.
Proof.
  destruct (Nat.le_gt_cases k (List.length l)) as [Hle|Hgt].
  - now rewrite Nat.min_l.
  - rewrite Nat.min_r by lia. rewrite skipn_all.
    symmetry. apply skipn_all2. lia.
Qed.

(** X13.  A negative limit [-k] does not bound the listing: the
    endpoint then leaves out the [k] oldest jobs and lists every other
    one. *)
Theorem get_jobs_negative_limit (k : Z) (st : AppState) :
  (0 < k)%Z ->
  get_jobs (Some (- k)%Z) st
  = map summary (skipn (Z.to_nat k) (jobs st)).
Proof.
  intros Hk. unfold get_jobs, limit_of, slice.
  destruct (Z.eqb_spec (- k) 0) as [E|_]; [lia|].
  rewrite Z.opp_involutive.
  destruct (Z.ltb_spec k 0) as [Hlt|_]; [lia|].
  rewrite Z2Nat.inj_min, Nat2Z.id. now rewrite skipn_min.
Qed.

Lemma get_jobs_negative_limit_witness :
  map job_id (get_jobs (Some (- 1)%Z) Samples.three_jobs)
  = ["job_2"; "job_3"].
Proof.
  change (- 1)%Z with (Z.opp 1).
  rewrite (get_jobs_negative_limit 1 Samples.three_jobs ltac:(lia)).
  reflexivity.
Defined.

Lemma body_tool_errors_nil i ts :
  Parser.tool_errors i ts = [] -> body_tool_errors i ts = [].
Proof.
  revert i. induction ts as [|t ts IH]; intros i; simpl; [easy|].
  intros H. apply app_nil_iff in H. destruct H as [Hn H].
  apply app_nil_iff in H. destruct H as [Hd H].
  apply app_nil_iff in H. destruct H as [_ Hts].
  rewrite Hn, Hd. now apply IH.
Qed.

(** X14.  Whatever the parser's [validate] accepts, the validation
    endpoint accepts: for a body without [serverDir], a specification
    with no parser error is answered valid with no errors and no
    warnings. *)
Theorem parser_valid_spec_passes_endpoint (w : World) (s : SpecBody) :
  Parser.validate (body_spec s) = [] ->
  post_validate w None (Some s)
  = Validated {| Validator.valid := true; Validator.errors := [];
                 Validator.warnings := [] |}.
Proof.
  unfold Parser.validate. rewrite !app_nil_iff.
  intros (Hn & _ & Ht & _ & Hte & _).
  unfold post_validate. cbn [truthy].
  assert (Hs : schemaErrors s = []).
  { unfold schemaErrors. rewrite Hn.
    destruct (Parser.tools (body_spec s)) as [[|t ts]|]; try discriminate.
    cbn [present negb andb app]. now apply body_tool_errors_nil. }
  now rewrite Hs.
Qed.

Lemma parser_valid_spec_passes_endpoint_witness :
  Parser.validate Samples.weather_json = []
  /\ post_validate Samples.fine_world None
       (Some {| body_spec := Samples.weather_json; prompts := false |})
     = Validated {| Validator.valid := true; Validator.errors := [];
                    Validator.warnings := [] |}.
Proof.
  split; [reflexivity|].
  exact (parser_valid_spec_passes_endpoint Samples.fine_world
           {| body_spec := Samples.weather_json; prompts := false |}
           eq_refl).
Defined.

End EndpointFacts.

(* ================================================================== *)
(** ** What the validator reports, and what of it fails a job          *)
(* ================================================================== *)

Section ValidatorFacts.
Import Js Validator Api.

Lemma filter_nonempty {A} (p : A -> bool) l :
  existsb p l = true -> filter p l <> [].
Proof.
  induction l as [|a l IH]; simpl; [discriminate|].
  destruct (p a); [discriminate | exact IH].
Qed.

Lemma filter_empty {A} (p : A -> bool) l :
  existsb p l = false -> filter p l = [].
Proof.
  induction l as [|a l IH]; simpl; [reflexivity|].
  destruct (p a); [discriminate | exact IH].
Qed.

(** X15.  The verdict and the issue list agree: a result is compliant
    exactly when each of its issues is one of the two notes, the one on
    a handler for an undeclared tool or the one on an [inputSchema]
    without a type; so a result that is not compliant always holds an
    issue that says why. *)
Theorem compliant_iff_only_notes (index_ts : option string) :
  compliant (checkProtocol index_ts) = true
  <-> forall m, In m (issues (checkProtocol index_ts)) ->
                m = schema_msg \/ exists t, m = undeclared_msg t.
Proof.
  destruct index_ts as [content|].
  2:{ simpl. split; [discriminate|]. intros H.
      destruct (H "Missing src/index.ts" (or_introl eq_refl))
        as [E|[t E]]; discriminate. }
  rewrite checkProtocol_compliant, checkProtocol_issues. split.
  - intros Hc.
    apply andb_true_iff in Hc. destruct Hc as [Hc Hrun].
    apply andb_true_iff in Hc. destruct Hc as [Hc Hmiss].
    apply andb_true_iff in Hc. destruct Hc as [Hl Hcall].
    rewrite Hl, Hcall, Hrun.
    apply negb_true_iff in Hmiss. rewrite (filter_empty _ _ Hmiss).
    cbn [map app]. rewrite app_nil_r.
    intros m Hin. apply in_app_or in Hin. destruct Hin as [Hin|Hin];
      apply in_map_iff in Hin; destruct Hin as (x & <- & _).
    + right. now exists x.
    + now left.
  - intros H.
    assert (Hno : forall m,
               (forall t, m <> undeclared_msg t) -> m <> schema_msg ->
               ~ In m
                   (app (if includes content "ListToolsRequestSchema"
                         then []
                         else ["Missing ListToolsRequestSchema handler"])
                   (app (if includes content "CallToolRequestSchema"
                         then []
                         else ["Missing CallToolRequestSchema handler"])
                   (app (map missing_handler_msg
                           (filter
                              (fun t => negb (shas (handledTools content) t))
                              (definedTools content)))
                   (app (map undeclared_msg
                           (filter
                              (fun t =>
                                 negb (shas (definedTools content) t)
                                 && negb (String.eqb t "default"))
                              (handledTools content)))
                   (app (map (fun _ => schema_msg)
                           (filter schema_lacks_type
                              (exec_all re_schema_at 0 content)))
                        (if includes content "server.connect"
                            || includes content ".run("
                         then []
                         else ["Missing server connection/run call"]))))))).
    { intros m Hu Hs Hin. destruct (H m Hin) as [E|[t E]];
        [now apply Hs | now apply (Hu t)]. }
    destruct (includes content "ListToolsRequestSchema").
    2:{ exfalso. apply (Hno "Missing ListToolsRequestSchema handler");
          [discriminate | discriminate | now left]. }
    destruct (includes content "CallToolRequestSchema").
    2:{ exfalso. apply (Hno "Missing CallToolRequestSchema handler");
          [discriminate | discriminate | now left]. }
    destruct (includes content "server.connect" || includes content ".run(").
    2:{ exfalso. apply (Hno "Missing server connection/run call");
          [discriminate | discriminate |].
        cbn [app]. do 3 (apply in_or_app; right). now left. }
    cbn [andb]. rewrite andb_true_r. apply negb_true_iff.
    destruct (existsb _ (definedTools content)) eqn:E; [|reflexivity].
    exfalso. apply filter_nonempty in E.
    destruct (filter _ (definedTools content)) as [|t ts]; [easy|].
    apply (Hno (missing_handler_msg t));
      [discriminate | discriminate | now left].
Qed.

Lemma protocol_entries_not_critical (l : list string) :
  filter critical (map (fun issue => EObject "protocol" None (Some issue)) l)
  = [].
Proof. induction l as [|m l IH]; [reflexivity | exact IH]. Qed.










End ValidatorFacts.

(* ================================================================== *)
(** ** What the generator writes, under the validator's checks         *)
(* ================================================================== *)

Section GeneratedFacts.
Import Js Validator Generator.

Lemma starts_with_app p s t r :
  starts_with p s = Some r -> starts_with p (s ++ t) = Some (r ++ t).
Proof.
  revert s. induction p as [|a p IH]; intros s; simpl.
  - now intros [= <-].
  - destruct s as [|b s]; simpl; [discriminate|].
    destruct (Ascii.eqb a b); [apply IH | discriminate].
Qed.

Lemma includes_app_l a b p :
  includes a p = true -> includes (a ++ b) p = true.
Proof.
  induction a as [|c a IH].
  - simpl. destruct (starts_with p "") as [r|] eqn:E; [|discriminate].
    intros _. apply (starts_with_app _ _ b) in E. simpl in E.
    destruct b; simpl; now rewrite E.
  - cbn [includes append].
    destruct (starts_with p (String c a)) as [r|] eqn:E.
    + intros _. apply (starts_with_app _ _ b) in E. cbn [append] in E.
      now rewrite E.
    + intros H. destruct (starts_with p (String c (a ++ b)));
        [reflexivity | now apply IH].
Qed.

Lemma includes_app_r a b p :
  includes b p = true -> includes (a ++ b) p = true.
Proof.
  intros H. induction a as [|c a IH]; [exact H|].
  cbn [includes append].
  destruct (starts_with p (String c (a ++ b))); [reflexivity | exact IH].
Qed.

Lemma genServerIndex_markers spec :
  includes (genServerIndex spec) "ListToolsRequestSchema" = true
  /\ includes (genServerIndex spec) "CallToolRequestSchema" = true
  /\ includes (genServerIndex spec) "server.connect" = true.
Proof.
  unfold genServerIndex. cbv zeta. split; [|split].
  - apply includes_app_l. reflexivity.
  - apply includes_app_l. reflexivity.
  - repeat match goal with
           | |- includes (_ ++ (_ ++ _)) _ = true => apply includes_app_r
           end.
    apply includes_app_r. reflexivity.
Qed.

(** X18.  On the [src/index.ts] the generator writes, whatever the
    specification, the protocol check never misses the two request
    handlers or the connection call: each issue is about one tool name
    or one [inputSchema], and the document is compliant exactly when
    every name the check reads as declared is one it reads as
    handled. *)
Theorem generated_index_has_markers (spec : Spec) :
  (forall m,
      In m (issues (checkProtocol (Some (genServerIndex spec)))) ->
      (exists t, m = missing_handler_msg t)
      \/ (exists t, m = undeclared_msg t) \/ m = schema_msg)
  /\ (compliant (checkProtocol (Some (genServerIndex spec))) = true
      <-> forall t, In t (definedTools (genServerIndex spec)) ->
                    In t (handledTools (genServerIndex spec))).
Proof.
  destruct (genServerIndex_markers spec) as (Hl & Hc & Hs).
  rewrite checkProtocol_issues, checkProtocol_compliant, Hl, Hc, Hs.
  cbn [app andb orb]. rewrite app_nil_r, andb_true_r. split.
  - intros m Hin.
    apply in_app_or in Hin. destruct Hin as [Hin|Hin];
      [|apply in_app_or in Hin; destruct Hin as [Hin|Hin]];
      apply in_map_iff in Hin; destruct Hin as (x & <- & _).
    + left. now exists x.
    + right. left. now exists x.
    + now right; right.
  - rewrite negb_true_iff. split.
    + intros He t Hin. apply shas_true.
      destruct (shas (handledTools (genServerIndex spec)) t) eqn:E;
        [reflexivity|].
      assert (Hex : existsb
                      (fun t => negb (shas (handledTools
                                              (genServerIndex spec)) t))
                      (definedTools (genServerIndex spec)) = true).
      { apply existsb_exists. exists t. now rewrite E. }
      congruence.
    + intros Hall.
      destruct (existsb _ (definedTools (genServerIndex spec))) eqn:E;
        [|reflexivity].
      apply existsb_exists in E. destruct E as (t & Hin & Ht).
      apply Hall, shas_true in Hin. now rewrite Hin in Ht.
Qed.

(** The [package.json] the generator writes passes the dependency
    check: nothing is missing and there is no warning. *)
Lemma genPackageJson_passes (spec : Spec) :
  Checks.checkDependencies (Checks.Parsed (genPackageJson spec))
  = Returns {| deps_valid := true; deps_missing := [];
               deps_warnings := [] |}.
Proof. reflexivity. Qed.

(** X19.  The validation of a server as the generator leaves it, in a
    directory without [node_modules] and with no lint findings, for
    every specification: the result is invalid, its first error is the
    one on [node_modules], the other errors are the protocol issues of
    the generated [src/index.ts] when that is not compliant, there is no
    dependency error and no warning, and no error is critical. *)
Theorem fresh_generated_server_not_critical (serverDir : string)
        (spec : Spec) (d : ServerDir) (v : Checks.TsView) :
  dir_exists d = true ->
  Validator.checkTypeScript d = Checks.checkTypeScript v ->
  Checks.has_tsconfig v = true ->
  Checks.has_node_modules v = false ->
  lint_errors (checkLint d) = [] ->
  lint_warnings (checkLint d) = [] ->
  index_ts d = Some (genServerIndex spec) ->
  Validator.checkDependencies d
  = Checks.checkDependencies (Checks.Parsed (genPackageJson spec)) ->
  exists res,
    validate serverDir d = Returns res
    /\ valid res = false
    /\ errors res
       = EObject "typescript"
           (Some ("node_modules not found - run " ++ dqs ++ "npm install"
                  ++ dqs ++ " first")) None
         :: (if compliant (checkProtocol (Some (genServerIndex spec)))
             then []
             else map (fun issue => EObject "protocol" None (Some issue))
                      (issues (checkProtocol
                                 (Some (genServerIndex spec)))))
    /\ warnings res = []
    /\ filter Api.critical (errors res) = [].
Proof.
  intros Hdir Hts Hcfg Hnm Hle Hlw Hidx Hdeps.
  unfold validate.
  rewrite Hdir, Hts, Hle, Hlw, Hidx, Hdeps, genPackageJson_passes.
  unfold Checks.checkTypeScript. rewrite Hcfg, Hnm.
  cbn [negb ts_success ts_errors is_empty app deps_valid deps_warnings
       deps_missing].
  eexists. split; [reflexivity|]. cbn [valid errors warnings].
  destruct (compliant (checkProtocol (Some (genServerIndex spec))));
    cbn [negb app is_empty].
  - repeat split.
  - split; [reflexivity|]. split; [reflexivity|]. split; [reflexivity|].
    cbn [filter]. change (Api.critical _) with false at 1.
    apply protocol_entries_not_critical.
Qed.

Lemma fresh_generated_server_not_critical_witness :
  exists res,
    validate "/opt/swarm-mcp-factory/output/weather/mcp-weather"
             Cases.fresh_dir = Returns res
    /\ valid res = false
    /\ warnings res = []
    /\ filter Api.critical (errors res) = [].
Proof.
  destruct (fresh_generated_server_not_critical
              "/opt/swarm-mcp-factory/output/weather/mcp-weather"
              Cases.weather_gen Cases.fresh_dir Cases.fresh_view
              eq_refl eq_refl eq_refl eq_refl eq_refl eq_refl eq_refl
              eq_refl)
    as (res & Hres & Hv & _ & Hw & Hc).
  exists res. repeat split; assumption.
Defined.

Lemma leading_digits_no_digit c s :
  Parser.digit c = false -> Checks.leading_digits (String c s) = "".
Proof. intros H. simpl. now rewrite H. Qed.

(** X20.  The warning on an old Node version is given only for a
    version text that starts with a digit: for a range such as one that
    starts with a comparison sign the check gives none, however old the
    version, and for a text that starts with digits it gives the warning
    exactly when their number is below 18. *)
Theorem node_warning_needs_leading_digit (pkg : Checks.PackageJson)
        (v : string) :
  Checks.engines_node pkg = Some v ->
  exists r,
    Checks.checkDependencies (Checks.Parsed pkg) = Returns r
    /\ (In (EObject "compatibility"
              (Some ("Node version " ++ v ++ " may be too old for MCP SDK"))
              None)
           (deps_warnings r)
        <-> Checks.leading_digits v <> ""
            /\ (Checks.digits_value 0 (Checks.leading_digits v) < 18)%N)
    /\ (forall c s, v = String c s -> Parser.digit c = false ->
        forall e, In e (deps_warnings r) ->
                  e = EObject "dependency"
                        (Some "typescript not in devDependencies") None).
Proof.
  intros Hv. unfold Checks.checkDependencies. rewrite Hv.
  change (interpolate (Some v)) with v.
  eexists. split; [reflexivity|]. cbn [deps_warnings].
  split.
  - destruct (truthy (Some v)) eqn:Et.
    + destruct (String.eqb_spec (Checks.leading_digits v) "") as [E|E];
        cbn [negb andb].
      * split; [|now intros [? _]].
        destruct (negb (truthy _)); simpl; intros H;
          repeat destruct H as [H|H]; try discriminate; easy.
      * destruct (N.ltb_spec (Checks.digits_value 0
                                (Checks.leading_digits v)) 18) as [L|L].
        -- split; [now intros _|]. intros _. apply in_or_app. right.
           now left.
        -- split; [|intros [_ H]; lia].
           destruct (negb (truthy _)); simpl; intros H;
             repeat destruct H as [H|H]; try discriminate; easy.
    + assert (v = "") as ->.
      { simpl in Et. apply negb_false_iff in Et.
        now apply String.eqb_eq in Et. }
      split; [|now intros [? _]].
      destruct (negb (truthy _)); simpl; intros H;
        repeat destruct H as [H|H]; try discriminate; easy.
  - intros c s -> Hc e. rewrite (leading_digits_no_digit c s Hc).
    cbn [String.eqb negb andb].
    destruct (truthy (Some (String c s)));
      destruct (negb (truthy _)); simpl; intros H;
      repeat destruct H as [H|H]; try easy.
Qed.

Lemma node_warning_needs_leading_digit_witness :
  exists r,
    Checks.checkDependencies (Checks.Parsed Cases.old_node_pkg) = Returns r
    /\ deps_warnings r = [].
Proof.
  destruct (node_warning_needs_leading_digit Cases.old_node_pkg ">=16.0.0"
              eq_refl) as (r & Hr & _ & _).
  exists r. split; [exact Hr|].
  vm_compute in Hr. injection Hr as Hr. subst r. reflexivity.
Defined.

End GeneratedFacts.

(* ================================================================== *)
(** ** The server endpoints leave the data alone                       *)
(* ================================================================== *)

Section ReadOnly.
Import Js Eff Api.

Lemma get_keeps_table w n v r :
  Registry.table (fst (Registry.get w n v r)) = Registry.table r.
Proof.
  unfold Registry.get, bind.
  pose proof (ensure_db_table w r) as H.
  destruct (Registry.ensure_db w r) as [r1 [[]|e]]; exact H.
Qed.

(** X21.  Looking a server up changes no job, stores no record and
    changes no row of the registry, and neither does the handler of
    [DELETE]: whatever they answer, the jobs map, the trace and the
    table are afterwards what they were. *)
Theorem server_endpoints_change_nothing (w : World) (name : string)
        (st : AppState) :
  (jobs (fst (get_server w name st)) = jobs st
   /\ trace (fst (get_server w name st)) = trace st
   /\ Registry.table (registry (fst (get_server w name st)))
      = Registry.table (registry st))
  /\ (jobs (fst (delete_server w name st)) = jobs st
      /\ trace (fst (delete_server w name st)) = trace st
      /\ Registry.table (registry (fst (delete_server w name st)))
         = Registry.table (registry st)).
Proof.
  assert (Hjt : forall A (m : M AppState A),
             preserves (fun a => jobs a = jobs st /\ trace a = trace st) m ->
             jobs (fst (m st)) = jobs st /\ trace (fst (m st)) = trace st).
  { intros A m Hm. now apply Hm. }
  split.
  - destruct (Hjt _ (get_server w name)) as [Hj Ht];
      [now apply get_server_keeps|].
    split; [exact Hj|]. split; [exact Ht|].
    unfold get_server, try_catch, bind.
    pose proof (ensureRegistry_table w st) as He.
    destruct (ensureRegistry w st) as [a [[]|e]]; cbn [fst] in He;
      [|exact He].
    change (registry_call w "get" name)
      with (async (fun r => match r with
                            | Some row => RRow row
                            | None => RNull
                            end)
                  (Registry.get w name None)).
    unfold async.
    pose proof (get_keeps_table w name None (registry a)) as Hg.
    destruct (Registry.get w name None (registry a)) as [r o].
    cbn [fst] in Hg. cbn [js_truthy negb ret fst registry with_registry].
    now rewrite Hg.
  - destruct (Hjt _ (delete_server w name)) as [Hj Ht];
      [now apply delete_server_keeps|].
    split; [exact Hj|]. split; [exact Ht|].
    unfold delete_server, try_catch, bind.
    pose proof (ensureRegistry_table w st) as He.
    destruct (ensureRegistry w st) as [a [[]|e]]; exact He.
Qed.

End ReadOnly.
